(** * SpotiFLAC: a shallow embedding of the download orchestration core

    This development models the parts of [bulk_download_manager.py] and
    [SpotiFLAC.py] that drive per-track downloads: the bulk per-track retry
    loop, the per-item track loop, the progress tracker and its events, the
    batch-file loader, and the playback pre-fetch cache worker with the
    interleaving of its unsynchronised writes and the player's GUI
    thread.  It also
    covers the metadata retry loop, the extraction of tracks from track,
    album and playlist metadata (and the GUI's handlers for the same
    metadata), the GUI's batch-file check, the completion summary, the
    tracker writes made along [run], the media player's navigation and
    cache requests, and the duration and position labels.

    The collaborators the code talks to (file system, service adapters, the
    stop flag set from the GUI thread) are modelled as per-attempt oracles:
    at attempt [a] the code observes [stopped a], the file-system snapshot
    [fs a], and the adapter answers [adapter a].  Delays (Python floats
    obtained from ints by multiplying by 1.5) are modelled exactly in [Q];
    with the bases the program uses the float products are dyadic and exact
    until they reach the 30-second cap. *)

From Stdlib Require Import List String Ascii ZArith QArith Lia Lqa Bool Sorting Permutation.
Import ListNotations.

Open Scope string_scope.

(* ------------------------------------------------------------------ *)
(** ** Python string helpers *)

Module Py.

(** Decimal rendering of a natural number ([str(n)]). *)
Fixpoint dec_aux (fuel n : nat) (acc : string) : string :=
  match fuel with
  | O => acc
  | S f =>
      let acc' := String (ascii_of_nat (48 + n mod 10)) acc in
      if Nat.ltb n 10 then acc' else dec_aux f (n / 10) acc'
  end.

Definition nat_str (n : nat) : string := dec_aux (S n) n "".

Definition Z_str (z : Z) : string :=
  if (z <? 0)%Z then "-" ++ nat_str (Z.to_nat (- z)) else nat_str (Z.to_nat z).

(** [f"{n:02d}"]: zero padding to width 2, the sign counting in the width. *)
Definition Z_str02 (z : Z) : string :=
  if ((0 <=? z) && (z <? 10))%Z then "0" ++ Z_str z else Z_str z.

(** [s.startswith(p)] *)
Fixpoint startswith (s p : string) : bool :=
  match p, s with
  | EmptyString, _ => true
  | String c p', String d s' => Ascii.eqb c d && startswith s' p'
  | String _ _, EmptyString => false
  end.

(** [p in s] for strings: substring test. *)
Fixpoint contains (s p : string) : bool :=
  startswith s p ||
  match s with
  | EmptyString => false
  | String _ s' => contains s' p
  end.

(** ASCII characters that [str.isspace] accepts:
    space, \t, \n, \x0b, \x0c, \r and \x1c .. \x1f. *)
Definition is_space (c : ascii) : bool :=
  let n := nat_of_ascii c in
  Nat.eqb n 32 || (Nat.leb 9 n && Nat.leb n 13) || (Nat.leb 28 n && Nat.leb n 31).

Fixpoint lstrip (s : string) : string :=
  match s with
  | EmptyString => EmptyString
  | String c s' => if is_space c then lstrip s' else s
  end.

Definition rev_str (s : string) : string :=
  string_of_list_ascii (rev (list_ascii_of_string s)).

(** [s.strip()] *)
Definition strip (s : string) : string := rev_str (lstrip (rev_str (lstrip s))).

(** [s.lower()] on ASCII. *)
Definition lower_char (c : ascii) : ascii :=
  let n := nat_of_ascii c in
  if Nat.leb 65 n && Nat.leb n 90 then ascii_of_nat (n + 32) else c.

Fixpoint lower (s : string) : string :=
  match s with
  | EmptyString => EmptyString
  | String c s' => String (lower_char c) (lower s')
  end.

(** The sanitising substitution of the source: each of the nine characters
    less-than, greater-than, colon, double quote, slash, backslash, bar,
    question mark and star is replaced by an underscore. *)
Definition unsafe_char (c : ascii) : bool :=
  existsb (Ascii.eqb c)
    (ascii_of_nat 34 :: ["<"; ">"; ":"; "/"; "\"; "|"; "?"; "*"]%char).

Fixpoint sanitize (s : string) : string :=
  match s with
  | EmptyString => EmptyString
  | String c s' => String (if unsafe_char c then "_"%char else c) (sanitize s')
  end.

(** [os.path.join(a, b)] for a relative [b]. *)
Definition path_join (a b : string) : string :=
  if startswith b "/" then b
  else if String.eqb a "" then b
  else if startswith (rev_str a) "/" then a ++ b
  else a ++ "/" ++ b.

(** Python's [min(x, y)]: returns [x] unless [y < x]. *)
Definition pymin (x y : Q) : Q := if Qlt_le_dec y x then y else x.

(** A file-system snapshot: path to [Some size] when the file exists. *)
Definition FS := string -> option Z.

(** [os.path.exists(p) and os.path.getsize(p) > 0] *)
Definition exists_nonempty (fs : FS) (p : string) : bool :=
  match fs p with Some sz => (0 <? sz)%Z | None => false end.

(** [os.path.exists(p)] *)
Definition path_exists (fs : FS) (p : string) : bool :=
  match fs p with Some _ => true | None => false end.

End Py.

Import Py.

(* ------------------------------------------------------------------ *)
(** ** bulk_download_manager.py: data model *)

Module Bulk.

(** [Track] dataclass. *)
Record Track := mkTrack {
  external_urls : string;
  title : string;
  artists : string;
  album : string;
  track_number : Z;
  duration_ms : Z;
  id : string;
  isrc : string;
  preview_url : string
}.

(** [BulkConfiguration] dataclass ([qobuz_region], [deezer_speed] and
    [max_concurrent_downloads] are only handed to the adapters). *)
Record BulkConfiguration := mkConfig {
  service : string;
  output_directory : string;
  filename_format : string;
  use_track_numbers : bool;
  use_album_subfolders : bool;
  retry_404_enabled : bool;
  retry_404_max_attempts : Z;
  retry_404_delay : Z
}.

(** The defaults of the dataclass, which are also what the GUI passes. *)
Definition default_config : BulkConfiguration :=
  mkConfig "tidal" "" "title_artist" true true true 10 3.

(** [BulkItem] dataclass (the raw [metadata] dict is not modelled). *)
Record BulkItem := mkItem {
  url : string;
  line_number : Z;
  status : string;
  error_message : string;
  retry_count : nat;
  tracks_count : nat;
  downloaded_count : nat;
  failed_tracks : list (string * string * string);
  item_type : string;
  item_title : string;
  output_path : string;
  tracks : list Track
}.

(** [BulkItem(url=url, line_number=n)] with every other field at its default. *)
Definition new_item (u : string) (n : Z) : BulkItem :=
  mkItem u n "pending" "" 0 0 0 [] "" "" "" [].

Definition set_downloaded (it : BulkItem) (k : nat) : BulkItem :=
  mkItem (url it) (line_number it) (status it) (error_message it) (retry_count it)
    (tracks_count it) k (failed_tracks it) (item_type it) (item_title it)
    (output_path it) (tracks it).

Definition set_failed (it : BulkItem) (f : list (string * string * string)) : BulkItem :=
  mkItem (url it) (line_number it) (status it) (error_message it) (retry_count it)
    (tracks_count it) (downloaded_count it) f (item_type it) (item_title it)
    (output_path it) (tracks it).

Definition set_status (it : BulkItem) (s e : string) : BulkItem :=
  mkItem (url it) (line_number it) s e (retry_count it)
    (tracks_count it) (downloaded_count it) (failed_tracks it) (item_type it)
    (item_title it) (output_path it) (tracks it).

(** Exceptions that reach the [except] clauses of the retry loop. *)
Inductive PyExc :=
| HTTPError (status_code : Z) (text : string)   (* requests.exceptions.HTTPError *)
| OtherExc (text : string).                     (* any other Exception *)

(** What the service branch of one attempt ends with, once the adapter has
    been called: it completes (a downloaded path or None, then the rename),
    it yields Tidal's stop dict [{success: False, error: Download stopped by
    user}], or an exception is raised inside the [try]. *)
Inductive BranchResult :=
| BrDone
| BrStopSentinel
| BrRaise (e : PyExc).

(** What one call of the per-track function observes, per attempt [a]. *)
Record TrackEnv := mkEnv {
  te_stopped : nat -> bool;         (* self.is_stopped at the top of attempt a *)
  te_fs : nat -> FS;                (* the file system during attempt a *)
  te_branch : nat -> BranchResult   (* the adapter's answer at attempt a *)
}.

(** Observable effects of the retry loop. *)
Inductive Event :=
| EvAttempt (a : nat)      (* the loop body is entered for attempt a *)
| EvAdapter (a : nat)      (* the ServiceAdapter is invoked at attempt a *)
| EvSleep (d : Q).         (* time.sleep(d) *)

(** [_get_formatted_filename] *)
Definition get_formatted_filename (cfg : BulkConfiguration) (t : Track)
    (it : BulkItem) : string :=
  let filename :=
    if String.eqb (filename_format cfg) "artist_title" then
      artists t ++ " - " ++ title t ++ ".flac"
    else if String.eqb (filename_format cfg) "title_only" then
      title t ++ ".flac"
    else title t ++ " - " ++ artists t ++ ".flac" in
  let filename :=
    if (String.eqb (item_type it) "album" ||
        (String.eqb (item_type it) "playlist" && use_album_subfolders cfg)) &&
       use_track_numbers cfg
    then Z_str02 (track_number t) ++ " - " ++ filename
    else filename in
  sanitize filename.

Definition track_filepath (cfg : BulkConfiguration) (t : Track) (it : BulkItem) : string :=
  path_join (output_path it) (get_formatted_filename cfg t it).

(** The service names whose branch first checks [track.isrc], with the
    name used in the error message. *)
Definition isrc_service_name (svc : string) : option string :=
  if String.eqb svc "qobuz" then Some "Qobuz"
  else if String.eqb svc "deezer" then Some "Deezer"
  else if String.eqb svc "tidal" then Some "Tidal"
  else None.

Definition retry_backoff (d : Q) : Q := pymin (d * (3 # 2)) 30.

Definition prepend (evs : list Event) (r : (bool * string) * list Event) :=
  (fst r, (evs ++ snd r)%list).

Section PerTrack.

Variable cfg : BulkConfiguration.
Variable env : TrackEnv.
Variable track : Track.
Variable item : BulkItem.
Variable max_attempts : Z.

(** The body of [for attempt in range(1, max_attempts + 1)] in
    [_download_single_track_with_retry]; [n] counts the iterations left. *)
Fixpoint attempt_loop (n : nat) (a : nat) (retry_delay : Q)
  : (bool * string) * list Event :=
  match n with
  | O => ((false, "Failed after " ++ Z_str max_attempts ++ " attempts"), [])
  | S n' =>
    let ev := EvAttempt a in
    if te_stopped env a then ((false, "Stopped by user"), [ev])
    else if exists_nonempty (te_fs env a) (track_filepath cfg track item) then
      ((true, "File already exists"), [ev])
    else
      match isrc_service_name (service cfg) with
      | None => ((true, "Download completed"), [ev])
      | Some svc =>
        if String.eqb (isrc track) "" then
          ((false, "No ISRC available for " ++ svc), [ev])
        else
          let evs := [ev; EvAdapter a] in
          match te_branch env a with
          | BrDone => ((true, "Download completed"), evs)
          | BrStopSentinel => ((false, "Download stopped by user"), evs)
          | BrRaise (HTTPError code msg) =>
              if (code =? 404)%Z && (Z.of_nat a <? max_attempts)%Z then
                prepend (evs ++ [EvSleep retry_delay])%list
                  (attempt_loop n' (S a) (retry_backoff retry_delay))
              else ((false, "HTTP " ++ Z_str code ++ ": " ++ msg), evs)
          | BrRaise (OtherExc msg) =>
              if (Z.of_nat a <? max_attempts)%Z && contains (lower msg) "404" then
                prepend (evs ++ [EvSleep retry_delay])%list
                  (attempt_loop n' (S a) (retry_backoff retry_delay))
              else ((false, msg), evs)
          end
      end
  end.

End PerTrack.

(** [_download_single_track_with_retry] *)
Definition download_single_track_with_retry (cfg : BulkConfiguration)
    (env : TrackEnv) (t : Track) (it : BulkItem) : (bool * string) * list Event :=
  let retry_delay := inject_Z (retry_404_delay cfg) in
  let max_attempts :=
    if retry_404_enabled cfg then retry_404_max_attempts cfg else 1%Z in
  attempt_loop cfg env t it max_attempts (Z.to_nat max_attempts) 1 retry_delay.

(** [_prepare_output_directory] (the [os.makedirs] call is not modelled). *)
Definition prepare_output_directory (cfg : BulkConfiguration) (it : BulkItem) : string :=
  if String.eqb (item_type it) "album" || String.eqb (item_type it) "playlist" then
    path_join (output_directory cfg) (sanitize (item_title it))
  else output_directory cfg.

(** The outcome of [_fetch_metadata_for_item]'s retry loop: the metadata of
    a successful attempt (the URL type and the title and tracks extracted
    from it), or the last error. *)
Inductive FetchResult :=
| FetchOk (ty : string) (ti : string) (ts : list Track)
| FetchFail (msg : string).

(** The assignments of a successful attempt of [_fetch_metadata_for_item]:
    [item_type], then [title] and [tracks] for the three known types, then
    [tracks_count = len(item.tracks)]. *)
Definition apply_fetch (it : BulkItem) (ty ti : string) (ts : list Track) : BulkItem :=
  let known := String.eqb ty "track" || String.eqb ty "album" || String.eqb ty "playlist" in
  let ti' := if known then ti else item_title it in
  let ts' := if known then ts else tracks it in
  mkItem (url it) (line_number it) (status it) (error_message it) (retry_count it)
    (List.length ts') (downloaded_count it) (failed_tracks it) ty ti'
    (output_path it) ts'.

Definition set_output (it : BulkItem) (p : string) : BulkItem :=
  mkItem (url it) (line_number it) (status it) (error_message it) (retry_count it)
    (tracks_count it) (downloaded_count it) (failed_tracks it) (item_type it)
    (item_title it) p (tracks it).

(** One iteration's bookkeeping in [_download_tracks_for_item]. *)
Definition record_result (it : BulkItem) (t : Track) (r : bool * string) : BulkItem :=
  if fst r then set_downloaded it (S (downloaded_count it))
  else set_failed it (failed_tracks it ++ [(title t, artists t, snd r)])%list.

Section ItemLoop.

Variable cfg : BulkConfiguration.
(** The environment of the per-track call for the [i]-th track. *)
Variable envs : nat -> TrackEnv.
(** [self.is_stopped] at the top of the [i]-th iteration of the track loop. *)
Variable loop_stopped : nat -> bool.

(** The loop [for i, track in enumerate(item.tracks)] of
    [_download_tracks_for_item]; the result lists the item after each
    iteration. *)
Fixpoint track_loop (i : nat) (ts : list Track) (it : BulkItem) : list BulkItem :=
  match ts with
  | [] => []
  | t :: ts' =>
      if loop_stopped i then []
      else
        let r := fst (download_single_track_with_retry cfg (envs i) t it) in
        let it' := record_result it t r in
        it' :: track_loop (S i) ts' it'
  end.

(** [_process_single_url]: the successive states of the item, starting from
    the item as it enters.  [has_downloader] is whether
    [self.downloaders['primary']] was initialised. *)
Definition process_single_url (has_downloader : bool) (fr : FetchResult)
    (it : BulkItem) : list BulkItem :=
  match fr with
  | FetchFail msg => [it; set_status it "failed" msg]
  | FetchOk ty ti ts =>
      let it1 := apply_fetch it ty ti ts in
      let it2 := set_output it1 (prepare_output_directory cfg it1) in
      if negb has_downloader then
        [it; it1; it2; set_status it2 "failed" "No downloader available"]
      else
        let tr := track_loop 0 (tracks it2) it2 in
        let fin := last tr it2 in
        let it3 :=
          match failed_tracks fin with
          | [] => set_status fin "completed" (error_message fin)
          | _ => set_status fin "completed_with_errors" (error_message fin)
          end in
        ([it; it1; it2] ++ tr ++ [it3])%list
  end.

End ItemLoop.

(** *** BulkProgressTracker *)

(** The tracker's fields; [start_time] is kept as whether it is set (its
    value only feeds [get_estimated_time_remaining], which reads the clock). *)
Record Tracker := mkTracker {
  total_urls : Z;
  processed_urls : Z;
  successful_urls : Z;
  failed_urls : Z;
  total_tracks : Z;
  downloaded_tracks : Z;
  tr_failed_tracks : Z;
  current_url_index : Z;
  start_time_set : bool
}.

Definition new_tracker : Tracker := mkTracker 0 0 0 0 0 0 0 0 false.

Definition start_tracking (tr : Tracker) (n : Z) : Tracker :=
  mkTracker n (processed_urls tr) (successful_urls tr) (failed_urls tr)
    (total_tracks tr) (downloaded_tracks tr) (tr_failed_tracks tr)
    (current_url_index tr) true.

Definition update_url_progress (tr : Tracker) (p s f : Z) : Tracker :=
  mkTracker (total_urls tr) p s f
    (total_tracks tr) (downloaded_tracks tr) (tr_failed_tracks tr)
    (current_url_index tr) (start_time_set tr).

Definition update_track_progress (tr : Tracker) (t d f : Z) : Tracker :=
  mkTracker (total_urls tr) (processed_urls tr) (successful_urls tr)
    (failed_urls tr) t d f (current_url_index tr) (start_time_set tr).

(** [get_progress_percentage] *)
Definition get_progress_percentage (tr : Tracker) : Q :=
  if (total_urls tr =? 0)%Z then 0
  else (inject_Z (processed_urls tr) / inject_Z (total_urls tr)) * 100.

(** [get_track_progress_percentage] *)
Definition get_track_progress_percentage (tr : Tracker) : Q :=
  if (total_tracks tr =? 0)%Z then 0
  else (inject_Z (downloaded_tracks tr) / inject_Z (total_tracks tr)) * 100.

(** The writes [BulkDownloadManager] performs on its tracker:
    [start_tracking] in [run], [current_url_index = i] in [run],
    [total_tracks += n] in [_fetch_metadata_for_item], and
    [downloaded_tracks += 1] / [failed_tracks += 1] in
    [_download_tracks_for_item]. *)
Inductive TrackerOp :=
| OpStart (n : Z)
| OpSetIndex (i : Z)
| OpAddTotal (n : Z)
| OpIncDownloaded
| OpIncFailed.

Definition apply_op (tr : Tracker) (op : TrackerOp) : Tracker :=
  match op with
  | OpStart n => start_tracking tr n
  | OpSetIndex i =>
      mkTracker (total_urls tr) (processed_urls tr) (successful_urls tr)
        (failed_urls tr) (total_tracks tr) (downloaded_tracks tr)
        (tr_failed_tracks tr) i (start_time_set tr)
  | OpAddTotal n =>
      update_track_progress tr (total_tracks tr + n) (downloaded_tracks tr)
        (tr_failed_tracks tr)
  | OpIncDownloaded =>
      update_track_progress tr (total_tracks tr) (downloaded_tracks tr + 1)
        (tr_failed_tracks tr)
  | OpIncFailed =>
      update_track_progress tr (total_tracks tr) (downloaded_tracks tr)
        (tr_failed_tracks tr + 1)
  end.

Definition apply_ops (tr : Tracker) (ops : list TrackerOp) : Tracker :=
  fold_left apply_op ops tr.

(** The dict emitted by [_emit_progress_update] ([estimated_time_remaining]
    reads the clock and is left out). *)
Record ProgressData := mkProgress {
  pd_total_urls : Z;
  pd_processed_urls : Z;
  pd_successful_urls : nat;
  pd_failed_urls : nat;
  pd_total_tracks : Z;
  pd_downloaded_tracks : Z;
  pd_failed_tracks : Z;
  pd_progress_percentage : Q;
  pd_track_progress_percentage : Q
}.

(** [_emit_progress_update] *)
Definition emit_progress_update (tr : Tracker) (items : list BulkItem) : ProgressData :=
  let upto := firstn (Z.to_nat (current_url_index tr + 1)) items in
  mkProgress
    (total_urls tr)
    (current_url_index tr + 1)
    (List.length (filter (fun it => String.eqb (status it) "completed" ||
                                    String.eqb (status it) "completed_with_errors") upto))
    (List.length (filter (fun it => String.eqb (status it) "failed") upto))
    (total_tracks tr)
    (downloaded_tracks tr)
    (tr_failed_tracks tr)
    (get_progress_percentage tr)
    (get_track_progress_percentage tr).

(** *** _load_urls_from_file *)

Definition CR : ascii := ascii_of_nat 13.
Definition LF : ascii := ascii_of_nat 10.

(** Text-mode reading translates \r\n and a lone \r to \n. *)
Fixpoint universal_newlines (s : string) : string :=
  match s with
  | EmptyString => EmptyString
  | String c s' =>
      if Ascii.eqb c CR then
        match s' with
        | String d s'' =>
            if Ascii.eqb d LF then String LF (universal_newlines s'')
            else String LF (universal_newlines s')
        | EmptyString => String LF EmptyString
        end
      else String c (universal_newlines s')
  end.

(** [file.readlines()]: lines keep their terminating \n. *)
Fixpoint split_lines (s : string) (cur : string) : list string :=
  match s with
  | EmptyString => if String.eqb cur "" then [] else [cur]
  | String c s' =>
      if Ascii.eqb c LF then (cur ++ String LF EmptyString) :: split_lines s' ""
      else split_lines s' (cur ++ String c EmptyString)
  end.

Definition readlines (content : string) : list string :=
  split_lines (universal_newlines content) "".

(** The test on [url = line.strip()]. *)
Definition url_accepted (u : string) : bool :=
  negb (String.eqb u "") && negb (startswith u "#") && contains u "spotify.com".

(** The loop [for line_num, line in enumerate(lines, 1)]. *)
Fixpoint collect_items (n : nat) (ls : list string) : list BulkItem :=
  match ls with
  | [] => []
  | l :: ls' =>
      let u := strip l in
      if url_accepted u then new_item u (Z.of_nat n) :: collect_items (S n) ls'
      else collect_items (S n) ls'
  end.

(** [_load_urls_from_file]: [None] is the [return False] after emitting
    [No valid Spotify URLs found in file]. *)
Definition load_urls_from_file (content : string) : option (list BulkItem) :=
  match collect_items 1 (readlines content) with
  | [] => None
  | items => Some items
  end.

(** The head of [run]: when loading fails, it returns before any item is
    processed; the result is the list of items the loop goes on to process. *)
Definition run_items (content : string) : list BulkItem :=
  match load_urls_from_file content with
  | None => []
  | Some items => items
  end.

End Bulk.

(* ------------------------------------------------------------------ *)
(** ** SpotiFLAC.py: the pre-fetch cache worker and the download worker *)

Module Player.

Import Bulk.

(** [Track] dataclass of SpotiFLAC.py. *)
Record CTrack := mkCTrack {
  c_external_urls : string;
  c_title : string;
  c_artists : string;
  c_album : string;
  c_track_number : Z;
  c_duration_ms : Z;
  c_id : string;
  c_isrc : string;
  c_preview_url : string;
  cached_file : string;
  is_downloading : bool;
  cache_error : string
}.

Definition set_cache_fields (t : CTrack) (cf : string) (dl : bool) (ce : string) : CTrack :=
  mkCTrack (c_external_urls t) (c_title t) (c_artists t) (c_album t)
    (c_track_number t) (c_duration_ms t) (c_id t) (c_isrc t) (c_preview_url t)
    cf dl ce.

Definition MAX_DOWNLOAD_RETRIES : nat := 3.
Definition RETRY_DELAY_SECONDS : Q := 2.

(** What the service call of [_perform_download] yields: the path returned
    by the downloader (or by [_download_deezer] / [_download_tidal]), or an
    exception raised by it or by those wrappers. *)
Inductive CacheAdapterResult :=
| CAReturn (downloaded : option string)
| CARaise (e : PyExc).

Record CacheEnv := mkCacheEnv {
  ce_fs : nat -> FS;                        (* the file system at attempt a *)
  ce_adapter : nat -> CacheAdapterResult    (* the service's answer at attempt a *)
}.

(** [os.replace(src, dst)] on a file-system snapshot. *)
Definition fs_replace (fs : FS) (src dst : string) : FS :=
  fun p => if String.eqb p dst then fs src
           else if String.eqb p src then None else fs p.

Inductive PerformResult :=
| PDCached (cache_file : string) (fs' : FS)   (* track.cached_file = cache_file *)
| PDRaise (e : PyExc).

Section Cache.

Variable cache_dir : string.
Variable service : string.

(** The cache file name of [_perform_download]. *)
Definition cache_file_of (t : CTrack) : string :=
  path_join cache_dir (sanitize (c_title t) ++ " - " ++ sanitize (c_artists t) ++ ".flac").

(** [_perform_download] for one attempt. *)
Definition perform_download (fs : FS) (ad : CacheAdapterResult) (t : CTrack) : PerformResult :=
  let cache_file := cache_file_of t in
  if exists_nonempty fs cache_file then PDCached cache_file fs
  else
    let no_isrc :=
      if String.eqb service "qobuz" then "No ISRC per Qobuz"
      else if String.eqb service "deezer" then "No ISRC per Deezer"
      else "No ISRC per Tidal" in
    if String.eqb (c_isrc t) "" then PDRaise (OtherExc no_isrc)
    else
      match ad with
      | CARaise e => PDRaise e
      | CAReturn (Some d) =>
          if path_exists fs d then PDCached cache_file (fs_replace fs d cache_file)
          else PDRaise (OtherExc "File scaricato non trovato")
      | CAReturn None => PDRaise (OtherExc "File scaricato non trovato")
      end.

Inductive CacheOutcome :=
| COk (cache_file : string)   (* track_cached emitted *)
| CErr (msg : string)         (* _handle_error(track_index, msg) *)
| CNone.                      (* the loop ran out without returning *)

(** [for attempt in range(1, MAX_DOWNLOAD_RETRIES + 1)] of
    [_download_with_retry]; [n] counts the iterations left. *)
Fixpoint cache_attempts (env : CacheEnv) (t : CTrack) (n a : nat)
  : CacheOutcome * list Event :=
  match n with
  | O => (CNone, [])
  | S n' =>
      let called :=
        negb (exists_nonempty (ce_fs env a) (cache_file_of t)) &&
        negb (String.eqb (c_isrc t) "") in
      let evs := EvAttempt a :: (if called then [EvAdapter a] else []) in
      match perform_download (ce_fs env a) (ce_adapter env a) t with
      | PDCached cf _ => (COk cf, [EvAttempt a])
      | PDRaise (HTTPError code msg) =>
          if (code =? 404)%Z && Nat.ltb a MAX_DOWNLOAD_RETRIES then
            let r := cache_attempts env t n' (S a) in
            (fst r, (evs ++ [EvSleep RETRY_DELAY_SECONDS] ++ snd r)%list)
          else (CErr msg, evs)
      | PDRaise (OtherExc msg) =>
          if Nat.ltb a MAX_DOWNLOAD_RETRIES then
            let r := cache_attempts env t n' (S a) in
            (fst r, (evs ++ [EvSleep RETRY_DELAY_SECONDS] ++ snd r)%list)
          else (CErr msg, evs)
      end
  end.

(** [_download_with_retry] *)
Definition download_with_retry (env : CacheEnv) (t : CTrack) : CacheOutcome * list Event :=
  cache_attempts env t MAX_DOWNLOAD_RETRIES 1.

End Cache.

(** The file system reached by a run of [_download_with_retry]: the
    snapshot of the attempt that placed the file in the cache. *)
Fixpoint cache_attempts_fs (cache_dir service : string) (env : CacheEnv)
    (t : CTrack) (n a : nat) : option FS :=
  match n with
  | O => None
  | S n' =>
      match perform_download cache_dir service (ce_fs env a) (ce_adapter env a) t with
      | PDCached _ fs' => Some fs'
      | PDRaise _ => cache_attempts_fs cache_dir service env t n' (S a)
      end
  end.

(** *** The worker's shared state: [self.tracks] and [self.download_queue] *)

Record CacheState := mkCacheState {
  ctracks : list CTrack;
  download_queue : list Z
}.

(** Python list indexing [tracks[i]]: negative indices count from the end;
    [None] is an [IndexError]. *)
Definition py_index (len : nat) (i : Z) : option nat :=
  if ((0 <=? i) && (i <? Z.of_nat len))%Z then Some (Z.to_nat i)
  else if ((- Z.of_nat len <=? i) && (i <? 0))%Z then Some (Z.to_nat (Z.of_nat len + i))
  else None.

Definition track_at (s : CacheState) (i : Z) : option CTrack :=
  match py_index (List.length (ctracks s)) i with
  | Some k => nth_error (ctracks s) k
  | None => None
  end.

Fixpoint update_nth {A} (k : nat) (f : A -> A) (l : list A) : list A :=
  match l, k with
  | [], _ => []
  | x :: l', O => f x :: l'
  | x :: l', S k' => x :: update_nth k' f l'
  end.

Definition update_track (s : CacheState) (i : Z) (f : CTrack -> CTrack) : list CTrack :=
  match py_index (List.length (ctracks s)) i with
  | Some k => update_nth k f (ctracks s)
  | None => ctracks s
  end.

(** [add_to_queue]; an [IndexError] (i below [-len]) leaves the state as it is. *)
Definition add_to_queue (s : CacheState) (i : Z) : CacheState :=
  if (i <? Z.of_nat (List.length (ctracks s)))%Z then
    match track_at s i with
    | Some t =>
        if String.eqb (cached_file t) "" && negb (is_downloading t) &&
           String.eqb (cache_error t) ""
        then mkCacheState
               (update_track s i (fun t => set_cache_fields t (cached_file t) true (cache_error t)))
               (download_queue s ++ [i])%list
        else s
    | None => s
    end
  else s.

(** *** DownloadWorker.run: the decisions taken for one track *)

Record DownloadWorkerCfg := mkDW {
  outpath : string;
  is_album : bool;
  is_playlist : bool;
  dw_filename_format : string;
  dw_use_track_numbers : bool;
  dw_use_album_subfolders : bool;
  dw_cache_dir : option string
}.

(** [DownloadWorker.get_formatted_filename] *)
Definition dw_formatted_filename (w : DownloadWorkerCfg) (t : CTrack) : string :=
  let filename :=
    if String.eqb (dw_filename_format w) "artist_title" then
      c_artists t ++ " - " ++ c_title t ++ ".flac"
    else if String.eqb (dw_filename_format w) "title_only" then c_title t ++ ".flac"
    else c_title t ++ " - " ++ c_artists t ++ ".flac" in
  sanitize filename.

Definition dw_track_outpath (w : DownloadWorkerCfg) (t : CTrack) : string :=
  if is_playlist w && dw_use_album_subfolders w then
    path_join (outpath w) (sanitize (c_album t))
  else outpath w.

Definition dw_new_filepath (w : DownloadWorkerCfg) (t : CTrack) : string :=
  let new_filename :=
    if (is_album w || (is_playlist w && dw_use_album_subfolders w)) &&
       dw_use_track_numbers w
    then Z_str02 (c_track_number t) ++ " - " ++ dw_formatted_filename w t
    else dw_formatted_filename w t in
  path_join (dw_track_outpath w t) (sanitize new_filename).

Inductive DWAction :=
| DWReturn                       (* self.is_stopped: run() returns *)
| DWSkipExisting                 (* File already exists: continue *)
| DWCopyFromCache (src : string) (* shutil.copy2(track.cached_file, new_filepath) *)
| DWDownload.                    (* the service download below *)

(** The first decisions of the loop body of [DownloadWorker.run] for one
    track, with [is_stopped] as observed after the pause loop. *)
Definition dw_track_action (w : DownloadWorkerCfg) (is_stopped : bool) (fs : FS)
    (t : CTrack) : DWAction :=
  if is_stopped then DWReturn
  else
    let new_filepath := dw_new_filepath w t in
    if exists_nonempty fs new_filepath then DWSkipExisting
    else
      let has_cache_dir :=
        match dw_cache_dir w with Some d => negb (String.eqb d "") | None => false end in
      if has_cache_dir && negb (String.eqb (cached_file t) "") &&
         path_exists fs (cached_file t)
      then DWCopyFromCache (cached_file t)
      else DWDownload.

End Player.

(* ------------------------------------------------------------------ *)
(** ** bulk_download_manager.py: _fetch_metadata_for_item *)

Module Fetch.

Import Bulk.

Definition MAX_METADATA_RETRIES : nat := 5.
Definition INITIAL_RETRY_DELAY : Q := 2.
Definition MAX_RETRY_DELAY : Q := 30.
Definition BACKOFF_MULTIPLIER : Q := 3 # 2.

(** The exceptions the [except] clauses of the metadata loop tell apart. *)
Inductive MetaExc :=
| MetaHTTP (status_code : Z) (text : string)   (* requests.exceptions.HTTPError *)
| MetaInvalidUrl (text : string)               (* SpotifyInvalidUrlException *)
| MetaOther (text : string).                   (* any other Exception, among them
                                                  the one raised for an error key
                                                  and a KeyError of the extraction *)

(** What the body of the [try] ends with at one attempt: the URL type, the
    title and the tracks it extracted, or an exception. *)
Inductive MetaAnswer :=
| MetaOk (ty ti : string) (ts : list Track)
| MetaRaise (e : MetaExc).

Record FetchEnv := mkFetchEnv {
  fe_stopped : nat -> bool;         (* self.is_stopped at the top of attempt a *)
  fe_stopped_sleep : nat -> bool;   (* self.is_stopped before the sleep of attempt a *)
  fe_answer : nat -> MetaAnswer     (* the outcome of the try block at attempt a *)
}.

Inductive FetchOutcome :=
| FOk (ty ti : string) (ts : list Track)   (* return True *)
| FStopped                                 (* return False at the stop check *)
| FFailed (last_error : string).           (* error_message = last_error,
                                              status = failed, return False *)

(** The [last_error] each [except] clause records. *)
Definition meta_error_text (e : MetaExc) : string :=
  match e with
  | MetaHTTP code txt => "HTTP Error " ++ Z_str code ++ ": " ++ txt
  | MetaInvalidUrl txt => "Invalid Spotify URL: " ++ txt
  | MetaOther txt => txt
  end.

(** Whether the [except] clause ends with [break]. *)
Definition meta_breaks (cfg : BulkConfiguration) (e : MetaExc) : bool :=
  match e with
  | MetaHTTP code _ => negb ((code =? 404)%Z && retry_404_enabled cfg)
  | MetaInvalidUrl _ => true
  | MetaOther _ => false
  end.

Definition prepend_f (evs : list Event) (r : FetchOutcome * list Event) :=
  (fst r, (evs ++ snd r)%list).

Section FetchLoop.

Variable cfg : BulkConfiguration.
Variable env : FetchEnv.

(** [for attempt in range(1, MAX_METADATA_RETRIES + 1)]; [n] counts the
    iterations left. *)
Fixpoint fetch_loop (n a : nat) (retry_delay : Q) (last_error : string)
  : FetchOutcome * list Event :=
  match n with
  | O => (FFailed last_error, [])
  | S n' =>
      if fe_stopped env a then (FStopped, [EvAttempt a])
      else
        match fe_answer env a with
        | MetaOk ty ti ts => (FOk ty ti ts, [EvAttempt a])
        | MetaRaise e =>
            let le := meta_error_text e in
            if meta_breaks cfg e then (FFailed le, [EvAttempt a])
            else if Nat.ltb a MAX_METADATA_RETRIES then
              if fe_stopped_sleep env a then
                prepend_f [EvAttempt a] (fetch_loop n' (S a) retry_delay le)
              else
                prepend_f [EvAttempt a; EvSleep retry_delay]
                  (fetch_loop n' (S a)
                     (pymin (retry_delay * BACKOFF_MULTIPLIER) MAX_RETRY_DELAY) le)
            else prepend_f [EvAttempt a] (fetch_loop n' (S a) retry_delay le)
        end
  end.

End FetchLoop.

(** [_fetch_metadata_for_item] *)
Definition fetch_metadata_for_item (cfg : BulkConfiguration) (env : FetchEnv)
  : FetchOutcome * list Event :=
  fetch_loop cfg env MAX_METADATA_RETRIES 1 INITIAL_RETRY_DELAY "".

(** The item's [(status, error_message)] after the call: only the code
    after the loop writes them. *)
Definition fetch_status (st em : string) (o : FetchOutcome) : string * string :=
  match o with
  | FFailed le => ("failed", le)
  | _ => (st, em)
  end.

End Fetch.

(* ------------------------------------------------------------------ *)
(** ** Building [Track] lists from the metadata dicts *)

Module Extract.

Import Bulk Player.

(** [s.split(sep)] for a one-character separator. *)
Fixpoint split_acc (sep : ascii) (s cur : string) : list string :=
  match s with
  | EmptyString => [cur]
  | String c s' =>
      if Ascii.eqb c sep then cur :: split_acc sep s' ""
      else split_acc sep s' (cur ++ String c "")
  end.

Definition py_split (sep : ascii) (s : string) : list string := split_acc sep s "".

(** [external_urls.split("/")[-1]]: the list is never empty. *)
Definition url_id (u : string) : string := last (py_split "/" u) "".

(** One entry of a metadata track list.  A key that [d[key]] reads is an
    option ([None]: KeyError); a key read with [d.get(key, default)] is an
    option too, [None] giving the default.  Present values have the types
    the metadata getter gives them. *)
Record TrackData := mkTrackData {
  td_external_urls : option string;
  td_name : option string;
  td_artists : option string;
  td_album_name : option string;       (* track_data["album"]["name"] *)
  td_track_number : option Z;
  td_duration_ms : option Z;           (* .get("duration_ms", 0) *)
  td_isrc : option string;             (* .get("isrc", "") *)
  td_preview_url : option string;      (* .get("preview_url", "") *)
  td_album_name_key : option string    (* .get("album_name", "") *)
}.

Definition get_default {A} (o : option A) (d : A) : A :=
  match o with Some x => x | None => d end.

(** The [Track(...)] call shared by the extraction functions, given the
    [album] and [track_number] arguments each of them computes; [None] is
    a KeyError. *)
Definition entry_track (td : TrackData) (album : option string) (tn : option Z)
  : option Track :=
  match td_external_urls td, td_name td, td_artists td, album, tn with
  | Some eu, Some nm, Some ar, Some al, Some n =>
      Some (mkTrack eu nm ar al n (get_default (td_duration_ms td) 0%Z) (url_id eu)
              (get_default (td_isrc td) "") (get_default (td_preview_url td) ""))
  | _, _, _, _, _ => None
  end.

(** [_extract_tracks_from_track_metadata]: [md_track] is [metadata["track"]]. *)
Definition extract_tracks_from_track_metadata (md_track : option TrackData)
  : option (list Track) :=
  match md_track with
  | None => None
  | Some td =>
      match entry_track td (td_album_name td) (td_track_number td) with
      | Some t => Some [t]
      | None => None
      end
  end.

Fixpoint album_tracks (album_name : string) (tl : list TrackData) : option (list Track) :=
  match tl with
  | [] => Some []
  | td :: tl' =>
      match entry_track td (Some album_name) (td_track_number td) with
      | Some t =>
          match album_tracks album_name tl' with
          | Some r => Some (t :: r)
          | None => None
          end
      | None => None
      end
  end.

(** [_extract_tracks_from_album_metadata]: [album_info_name] is
    [metadata["album_info"]["name"]], [track_list] is [metadata["track_list"]]. *)
Definition extract_tracks_from_album_metadata (album_info_name : option string)
    (track_list : option (list TrackData)) : option (list Track) :=
  match album_info_name, track_list with
  | Some an, Some tl => album_tracks an tl
  | _, _ => None
  end.

(** The loop [for i, track_data in enumerate(metadata["track_list"], 1)]. *)
Fixpoint playlist_tracks (i : Z) (tl : list TrackData) : option (list Track) :=
  match tl with
  | [] => Some []
  | td :: tl' =>
      match entry_track td (Some (get_default (td_album_name_key td) "")) (Some i) with
      | Some t =>
          match playlist_tracks (i + 1) tl' with
          | Some r => Some (t :: r)
          | None => None
          end
      | None => None
      end
  end.

(** [_extract_tracks_from_playlist_metadata] *)
Definition extract_tracks_from_playlist_metadata (track_list : option (list TrackData))
  : option (list Track) :=
  match track_list with
  | Some tl => playlist_tracks 1 tl
  | None => None
  end.

(** The GUI's [Track] dataclass built from the same keyword arguments: the
    cache fields keep their defaults. *)
Definition to_ctrack (t : Track) : CTrack :=
  mkCTrack (external_urls t) (title t) (artists t) (album t) (track_number t)
    (duration_ms t) (id t) (isrc t) (preview_url t) "" false "".

(** The loop of the GUI handlers: [self.tracks.append(Track(...))] per
    entry, where [f] builds the entry from [len(self.tracks)]; a KeyError
    leaves [self.tracks] as far as it got. *)
Fixpoint gui_append (f : nat -> TrackData -> option Track) (acc : list CTrack)
    (tl : list TrackData) : list CTrack :=
  match tl with
  | [] => acc
  | td :: tl' =>
      match f (List.length acc) td with
      | Some t => gui_append f (acc ++ [to_ctrack t])%list tl'
      | None => acc
      end
  end.

(** [self.tracks] after [handle_album_metadata(album_data)], given its
    value [prev] before the call: the album name is read before
    [self.tracks = []], the track list after. *)
Definition gui_album_tracks (prev : list CTrack) (album_info_name : option string)
    (track_list : option (list TrackData)) : list CTrack :=
  match album_info_name with
  | None => prev
  | Some an =>
      match track_list with
      | None => []
      | Some tl => gui_append (fun _ td => entry_track td (Some an) (td_track_number td)) [] tl
      end
  end.

(** [self.tracks] after [handle_playlist_metadata(playlist_data)]: the
    owner name is read before [self.tracks = []]; the track number is
    [len(self.tracks) + 1]. *)
Definition gui_playlist_tracks (prev : list CTrack) (owner_name : option string)
    (track_list : option (list TrackData)) : list CTrack :=
  match owner_name with
  | None => prev
  | Some _ =>
      match track_list with
      | None => []
      | Some tl =>
          gui_append (fun k td => entry_track td (Some (get_default (td_album_name_key td) ""))
                                    (Some (Z.of_nat k + 1)%Z)) [] tl
      end
  end.

End Extract.

(* ------------------------------------------------------------------ *)
(** ** The GUI side: batch-file check, completion summary, time labels,
    player navigation *)

Module Gui.

Import Bulk Player.

(** [SpotiFLACGUI.validate_bulk_file] on the file's content: the count of
    valid URLs, and whether the start button is enabled. *)
Fixpoint count_valid (ls : list string) : nat :=
  match ls with
  | [] => 0
  | l :: ls' => if url_accepted (strip l) then S (count_valid ls') else count_valid ls'
  end.

Definition validate_bulk_file (content : string) : nat * bool :=
  let valid_urls := count_valid (readlines content) in
  (valid_urls, Nat.ltb 0 valid_urls).

(** The dict built by [_handle_completion] ([duration] reads the clock). *)
Record CompletionData := mkCompletion {
  cd_total_urls : nat;
  cd_successful_urls : nat;
  cd_failed_urls : nat;
  cd_total_tracks : Z;
  cd_downloaded_tracks : nat;
  cd_failed_tracks : nat
}.

Definition item_completed (it : BulkItem) : bool :=
  String.eqb (status it) "completed" || String.eqb (status it) "completed_with_errors".

Definition item_failed (it : BulkItem) : bool := String.eqb (status it) "failed".

(** [_handle_completion] *)
Definition handle_completion (items : list BulkItem) (tr : Tracker) : CompletionData :=
  mkCompletion (List.length items)
    (List.length (filter item_completed items))
    (List.length (filter item_failed items))
    (total_tracks tr)
    (fold_right (fun it s => (downloaded_count it + s)%nat) 0%nat items)
    (fold_right (fun it s => (List.length (failed_tracks it) + s)%nat) 0%nat items).

(** [SpotiFLACGUI.format_duration]: [//] and [%] are floor division and
    modulo. *)
Definition format_duration (ms : Z) : string :=
  let minutes := (ms / 60000)%Z in
  let seconds := ((ms mod 60000) / 1000)%Z in
  Z_str minutes ++ ":" ++ Z_str02 seconds.

(** [MediaPlayer.format_time]: [int(ms / 1000)] truncates towards zero
    (for the positions a player reports, well below 2^40 ms, the float
    quotient truncates to the integer quotient), then [divmod] by 60. *)
Definition format_time (ms : Z) : string :=
  let s := Z.quot ms 1000 in
  let m := (s / 60)%Z in
  let s := (s mod 60)%Z in
  Z_str02 m ++ ":" ++ Z_str02 s.

(** The navigation state of [MediaPlayer]: [len(self.tracks)] and
    [self.current_track_index]. *)
Record Nav := mkNav {
  nav_len : Z;
  current_track_index : Z
}.

(** [load_tracks] *)
Definition load_tracks (n : nat) : Nav := mkNav (Z.of_nat n) 0.

(** [previous_track] *)
Definition previous_track (s : Nav) : Nav :=
  if (0 <? current_track_index s)%Z
  then mkNav (nav_len s) (current_track_index s - 1)
  else s.

(** [next_track] *)
Definition next_track (s : Nav) : Nav :=
  if (current_track_index s <? nav_len s - 1)%Z
  then mkNav (nav_len s) (current_track_index s + 1)
  else s.

(** [media_status_changed(EndOfMedia)]: the next track, or
    [stop_playback], which leaves the index alone. *)
Definition end_of_media (s : Nav) : Nav :=
  if (current_track_index s <? nav_len s - 1)%Z then next_track s else s.

Inductive NavOp := NavPrev | NavNext | NavEnd.

Definition nav_step (s : Nav) (op : NavOp) : Nav :=
  match op with
  | NavPrev => previous_track s
  | NavNext => next_track s
  | NavEnd => end_of_media s
  end.

Definition nav_run (s : Nav) (ops : list NavOp) : Nav := fold_left nav_step ops s.

(** The cache requests of [load_current_track] on the worker's state, with
    [idx] the current index: the current track, then the next one, each
    only when it has neither a cached file nor a cache error. *)
Definition load_current_track (s : CacheState) (idx : Z) : CacheState :=
  let len := Z.of_nat (List.length (ctracks s)) in
  if (len =? 0)%Z || (len <=? idx)%Z then s
  else
    let s1 :=
      match track_at s idx with
      | Some t =>
          if String.eqb (cached_file t) "" && String.eqb (cache_error t) ""
          then add_to_queue s idx else s
      | None => s
      end in
    if (idx + 1 <? Z.of_nat (List.length (ctracks s1)))%Z then
      match track_at s1 (idx + 1) with
      | Some t =>
          if String.eqb (cached_file t) "" && String.eqb (cache_error t) ""
          then add_to_queue s1 (idx + 1) else s1
      | None => s1
      end
    else s1.

End Gui.

(* ------------------------------------------------------------------ *)
(** ** The tracker writes of [run] *)

Module Run.

Import Bulk Fetch.

Section RunLoop.

Variable cfg : BulkConfiguration.
(** The environments and stop flags of the track loop of the [i]-th item. *)
Variable item_envs : nat -> nat -> TrackEnv.
Variable item_stop : nat -> nat -> bool.
Variable has_downloader : bool.
(** The outcome of [_fetch_metadata_for_item] for the [i]-th item. *)
Variable fetch : nat -> FetchOutcome.
(** [self.is_stopped] at the top of the [i]-th iteration of [run]. *)
Variable run_stop : nat -> bool.

(** The tracker writes of the loop of [_download_tracks_for_item]: one
    [downloaded_tracks += 1] or [failed_tracks += 1] per iteration; the
    iterations are those of [track_loop]. *)
Fixpoint track_loop_ops (envs : nat -> TrackEnv) (stop : nat -> bool) (i : nat)
    (ts : list Track) (it : BulkItem) : list TrackerOp :=
  match ts with
  | [] => []
  | t :: ts' =>
      if stop i then []
      else
        let r := fst (download_single_track_with_retry cfg (envs i) t it) in
        let it' := record_result it t r in
        (if fst r then OpIncDownloaded else OpIncFailed)
          :: track_loop_ops envs stop (S i) ts' it'
  end.

(** The tracker writes of one iteration of [run]: [current_url_index = i],
    then [total_tracks += item.tracks_count] when the metadata was fetched,
    then those of the track loop when a downloader is available. *)
Definition item_ops (i : nat) (it : BulkItem) : list TrackerOp :=
  OpSetIndex (Z.of_nat i) ::
  match fetch i with
  | FOk ty ti ts =>
      let it1 := apply_fetch it ty ti ts in
      let it2 := set_output it1 (prepare_output_directory cfg it1) in
      OpAddTotal (Z.of_nat (tracks_count it1)) ::
      (if has_downloader then track_loop_ops (item_envs i) (item_stop i) 0 (tracks it2) it2
       else [])
  | _ => []
  end.

(** [for i, item in enumerate(self.bulk_items)], left at a stop request. *)
Fixpoint run_ops (i : nat) (items : list BulkItem) : list TrackerOp :=
  match items with
  | [] => []
  | it :: items' => if run_stop i then [] else (item_ops i it ++ run_ops (S i) items')%list
  end.

(** [start_tracking(len(self.bulk_items))], then the loop. *)
Definition run_tracker_ops (items : list BulkItem) : list TrackerOp :=
  OpStart (Z.of_nat (List.length items)) :: run_ops 0 items.

End RunLoop.

End Run.

(* ------------------------------------------------------------------ *)
(** ** The cache worker thread beside the GUI thread *)

Module Threads.

Import Bulk Player Gui.

(** Where the worker thread is in [run]: at the top of its [while] loop,
    or before one of the statements that write the popped track once
    [_download_with_retry] has its outcome.  None of these writes takes
    the mutex. *)
Inductive WorkerPC :=
| WIdle
| WOkFile (i : Z) (cf : string)     (* _perform_download: track.cached_file = cache_file *)
| WOkClear (i : Z) (cf : string)    (* track.is_downloading = False *)
| WOkEmit (i : Z) (cf : string)     (* self.track_cached.emit(track_index, cache_file) *)
| WErrClear (i : Z) (msg : string)  (* _handle_error: track.is_downloading = False *)
| WErrSet (i : Z) (msg : string)    (* track.cache_error = msg *)
| WErrEmit (i : Z) (msg : string).  (* self.error_occurred.emit(track_index, msg) *)

(** A signal the worker emitted and the GUI thread has not yet delivered
    to its slot (a queued connection across threads). *)
Inductive Signal :=
| SigCached (i : Z) (cf : string)
| SigError (i : Z) (msg : string).

(** The player's [self.tracks] is the worker's [self.tracks] (the same
    list, the same [Track] objects): [sys_cache] holds it with the
    worker's [download_queue]; [sys_nav] is the player's
    [current_track_index] over it; [sys_runs] records each call of
    [_download_with_retry] with its track index and its events. *)
Record Sys := mkSys {
  sys_cache : CacheState;
  sys_nav : Nav;
  sys_worker : WorkerPC;
  sys_pending : list Signal;
  sys_runs : list (Z * list Event)
}.

(** One step of either thread: a user action on the player
    ([previous_track], [next_track], or the end of the media), the GUI
    thread running the slot of the oldest pending signal, or the worker
    thread's next statement ([env] answers the download it may start). *)
Inductive Action :=
| AUser (op : NavOp)
| ASlot
| AWorker (env : CacheEnv).

Definition write_track (c : CacheState) (i : Z) (f : CTrack -> CTrack) : CacheState :=
  mkCacheState (update_track c i f) (download_queue c).

(** [MediaPlayer.load_tracks(tracks)]: the worker starts on the same
    list, then [load_current_track] runs at index 0. *)
Definition load_tracks_sys (tracks : list CTrack) : Sys :=
  mkSys (load_current_track (mkCacheState tracks []) 0) (load_tracks (List.length tracks))
    WIdle [] [].

(** [previous_track], [next_track] and [media_status_changed(EndOfMedia)]:
    [load_current_track] runs exactly when the index moves. *)
Definition user_step (op : NavOp) (s : Sys) : Sys :=
  let n' := nav_step (sys_nav s) op in
  let c' :=
    if (current_track_index n' =? current_track_index (sys_nav s))%Z then sys_cache s
    else load_current_track (sys_cache s) (current_track_index n') in
  mkSys c' n' (sys_worker s) (sys_pending s) (sys_runs s).

(** [on_track_cached] and [on_cache_error]:
    [if track_index < len(self.tracks)] write the field. *)
Definition slot (c : CacheState) (sg : Signal) : CacheState :=
  match sg with
  | SigCached i cf =>
      if (i <? Z.of_nat (List.length (ctracks c)))%Z
      then write_track c i (fun t => set_cache_fields t cf (is_downloading t) (cache_error t))
      else c
  | SigError i msg =>
      if (i <? Z.of_nat (List.length (ctracks c)))%Z
      then write_track c i (fun t => set_cache_fields t (cached_file t) (is_downloading t) msg)
      else c
  end.

(** The worker's next statement.  At the top of the loop it pops the head
    of the queue under the mutex and runs [_download_with_retry] on it, or
    sleeps on an empty queue.  The download reads only the track's title,
    artists and ISRC, which no thread writes, so it is taken in one step;
    the writes that follow are one step each.  [None]: the [IndexError]
    of [self.tracks[track_index]], which stops the thread. *)
Definition worker_step (cache_dir service : string) (env : CacheEnv) (s : Sys) : option Sys :=
  let c := sys_cache s in
  let upd c' w p := Some (mkSys c' (sys_nav s) w p (sys_runs s)) in
  match sys_worker s with
  | WIdle =>
      match download_queue c with
      | [] => Some s
      | i :: q =>
          let c1 := mkCacheState (ctracks c) q in
          match track_at c1 i with
          | None => None
          | Some t =>
              let r := download_with_retry cache_dir service env t in
              let w := match fst r with
                       | COk cf => WOkFile i cf
                       | CErr msg => WErrClear i msg
                       | CNone => WIdle
                       end in
              Some (mkSys c1 (sys_nav s) w (sys_pending s) (sys_runs s ++ [(i, snd r)])%list)
          end
      end
  | WOkFile i cf =>
      upd (write_track c i (fun t => set_cache_fields t cf (is_downloading t) (cache_error t)))
        (WOkClear i cf) (sys_pending s)
  | WOkClear i cf =>
      upd (write_track c i (fun t => set_cache_fields t (cached_file t) false (cache_error t)))
        (WOkEmit i cf) (sys_pending s)
  | WOkEmit i cf => upd c WIdle (sys_pending s ++ [SigCached i cf])%list
  | WErrClear i msg =>
      upd (write_track c i (fun t => set_cache_fields t (cached_file t) false (cache_error t)))
        (WErrSet i msg) (sys_pending s)
  | WErrSet i msg =>
      upd (write_track c i (fun t => set_cache_fields t (cached_file t) (is_downloading t) msg))
        (WErrEmit i msg) (sys_pending s)
  | WErrEmit i msg => upd c WIdle (sys_pending s ++ [SigError i msg])%list
  end.

Definition sys_step (cache_dir service : string) (a : Action) (s : Sys) : option Sys :=
  match a with
  | AUser op => Some (user_step op s)
  | ASlot =>
      match sys_pending s with
      | [] => None
      | sg :: p => Some (mkSys (slot (sys_cache s) sg) (sys_nav s) (sys_worker s) p (sys_runs s))
      end
  | AWorker env => worker_step cache_dir service env s
  end.

(** An interleaving of the two threads; [None] when an action is not
    possible at its point. *)
Fixpoint sys_run (cache_dir service : string) (acts : list Action) (s : Sys) : option Sys :=
  match acts with
  | [] => Some s
  | a :: acts' =>
      match sys_step cache_dir service a s with
      | Some s' => sys_run cache_dir service acts' s'
      | None => None
      end
  end.

End Threads.



(* ------------------------------------------------------------------ *)
(** ** Observations on event traces *)

Module Trace.

Import Bulk.

Fixpoint attempt_numbers (evs : list Event) : list nat :=
  match evs with
  | [] => []
  | EvAttempt a :: evs' => a :: attempt_numbers evs'
  | _ :: evs' => attempt_numbers evs'
  end.

Fixpoint sleeps (evs : list Event) : list Q :=
  match evs with
  | [] => []
  | EvSleep d :: evs' => d :: sleeps evs'
  | _ :: evs' => sleeps evs'
  end.

Fixpoint adapter_calls (evs : list Event) : nat :=
  match evs with
  | [] => 0
  | EvAdapter _ :: evs' => S (adapter_calls evs')
  | _ :: evs' => adapter_calls evs'
  end.

(** The capped geometric sequence [d, min(d*1.5, 30), ...] of length [k]. *)
Fixpoint backoff_list (d : Q) (k : nat) : list Q :=
  match k with
  | O => []
  | S k' => d :: backoff_list (retry_backoff d) k'
  end.

(** An error the bulk loop treats as a 404: an HTTP 404, or another
    exception whose lower-cased text contains 404. *)
Definition like404 (e : PyExc) : bool :=
  match e with
  | HTTPError code _ => (code =? 404)%Z
  | OtherExc msg => contains (lower msg) "404"
  end.

(** An error the cache loop retries (while attempts are left): an HTTP
    404, or any exception that is not an [HTTPError]. *)
Definition cache_retryable (e : PyExc) : bool :=
  match e with
  | HTTPError code _ => (code =? 404)%Z
  | OtherExc _ => true
  end.

(** What an item has settled so far: [downloaded_count + len(failed_tracks)]. *)
Definition counters (it : BulkItem) : nat :=
  (downloaded_count it + List.length (failed_tracks it))%nat.

End Trace.

(* ------------------------------------------------------------------ *)
(** ** Concrete inputs *)

Module Samples.

Import Bulk Player.

Definition song : Track :=
  mkTrack "https://open.spotify.com/track/abc" "Song" "Artist" "Album" 3 1000
    "abc" "USRC17607839" "".

Definition empty_fs : FS := fun _ => None.

(** Every attempt: no stop request, no file, the same adapter answer. *)
Definition env_const (b : BranchResult) : TrackEnv :=
  mkEnv (fun _ => false) (fun _ => empty_fs) (fun _ => b).

(** An album item as [_process_single_url] hands it to the track loop. *)
Definition album_item : BulkItem :=
  let it1 := apply_fetch (new_item "https://open.spotify.com/album/xyz" 1)
               "album" "Album" [song] in
  set_output it1 (prepare_output_directory default_config it1).

Definition csong : CTrack :=
  mkCTrack "https://open.spotify.com/track/abc" "Song" "Artist" "Album" 3 1000
    "abc" "USRC17607839" "" "" false "".

Definition cache_env_const (r : CacheAdapterResult) : CacheEnv :=
  mkCacheEnv (fun _ => empty_fs) (fun _ => r).

(** Two failed attempts, then the downloaded file is found. *)
Definition cache_env_third_ok : CacheEnv :=
  mkCacheEnv
    (fun _ p => if String.eqb p "/tmp/dl.flac" then Some 4096%Z else None)
    (fun a => if Nat.eqb a 3 then CAReturn (Some "/tmp/dl.flac")
              else CARaise (OtherExc "Connection aborted")).

(** The destination of [song] in [album_item] exists with 5000 bytes; the
    stop flag reads [stopped] at every attempt. *)
Definition env_existing (stopped : bool) : TrackEnv :=
  mkEnv (fun _ => stopped)
    (fun _ p => if String.eqb p (track_filepath default_config song album_item)
                then Some 5000%Z else None)
    (fun _ => BrRaise (OtherExc "Connection reset by peer")).

(** The stop flag is raised between the track loop's check and the first
    attempt of the per-track function. *)
Definition env_stopped_first : TrackEnv :=
  mkEnv (fun _ => true) (fun _ => empty_fs) (fun _ => BrDone).

(** A service that leaves a zero-byte file behind (an interrupted write). *)
Definition zero_byte_fs : FS :=
  fun p => if String.eqb p "/tmp/dl.flac" then Some 0%Z else None.

Definition cache_env_zero_byte : CacheEnv :=
  mkCacheEnv (fun _ => zero_byte_fs) (fun _ => CAReturn (Some "/tmp/dl.flac")).

Definition cached_zero_fs : FS :=
  fun p => if String.eqb p "/cache/Song - Artist.flac" then Some 0%Z else None.

Definition dw_single : DownloadWorkerCfg :=
  mkDW "/music" false false "title_artist" true false (Some "/cache").

Definition nl : string := String LF EmptyString.

(** Two valid lines, a comment line and a blank line. *)
Definition batch_file : string :=
  "https://open.spotify.com/track/4uLU6hMCjMI75M1A2tKUQC" ++ nl ++
  "# https://open.spotify.com/album/1DFixLWuPkv3KT3TnV35m3" ++ nl ++
  "   " ++ nl ++
  "  https://open.spotify.com/playlist/37i9dQZF1DXcBWIGoYBM5M  " ++ nl.

(** [retry_404_enabled=False]. *)
Definition no_retry_config : BulkConfiguration :=
  mkConfig "tidal" "" "title_artist" true true false 10 3.

(** A cache worker whose service fails on every attempt. *)
Definition cache_env_fail : CacheEnv :=
  mkCacheEnv (fun _ => empty_fs) (fun _ => CARaise (OtherExc "Connection reset by peer")).

(** A freshly loaded one-track list with an empty queue. *)
Definition cq0 : CacheState := mkCacheState [csong] [].

(** A second track of the same album. *)
Definition csong2 : CTrack :=
  mkCTrack "https://open.spotify.com/track/def" "Other" "Artist" "Album" 4 1000
    "def" "USRC17607840" "" "" false "".

Import Gui Threads.

(** The player loads [csong] and [csong2]: both are queued. *)
Definition race_start : Sys := load_tracks_sys [csong; csong2].

(** The worker pops track 0, its three attempts fail, and [_handle_error]
    clears [is_downloading]; before it sets [cache_error] the user presses
    next, then previous; the worker then sets [cache_error] and emits, and
    the GUI runs [on_cache_error]. *)
Definition race_window : list Action :=
  [AWorker cache_env_fail; AWorker cache_env_fail; AUser NavNext; AUser NavPrev;
   AWorker cache_env_fail; AWorker cache_env_fail; ASlot].

(** The same steps with the user's two presses after [_handle_error]. *)
Definition race_serial : list Action :=
  [AWorker cache_env_fail; AWorker cache_env_fail; AWorker cache_env_fail;
   AWorker cache_env_fail; AUser NavNext; AUser NavPrev; ASlot].

(** The worker goes on: it pops track 1, fails it, and goes back to its
    queue. *)
Definition race_rest : list Action :=
  [AWorker cache_env_fail; AWorker cache_env_fail; AWorker cache_env_fail;
   AWorker cache_env_fail; AWorker cache_env_fail].

End Samples.

(* ------------------------------------------------------------------ *)
(** ** Readers and samples for the further properties *)

Module Aux.

Import Bulk Player Fetch Extract Gui Run.

(** A name free of the characters [sanitize_filename] replaces. *)
Definition safe_name (s : string) : bool :=
  forallb (fun c => negb (unsafe_char c)) (list_ascii_of_string s).

(** [retry_404_max_attempts=0] with retries enabled. *)
Definition zero_attempts_config : BulkConfiguration :=
  mkConfig "tidal" "" "title_artist" true true true 0 3.

(** An attempt of the metadata loop that raises an error the loop retries,
    with no stop request read. *)
Definition meta_retryable (cfg : BulkConfiguration) (env : FetchEnv) (b : nat) : Prop :=
  fe_stopped env b = false /\ fe_stopped_sleep env b = false /\
  exists e, fe_answer env b = MetaRaise e /\ meta_breaks cfg e = false.

(** Every metadata request answers HTTP 404; no stop request. *)
Definition fetch_env_404 : FetchEnv :=
  mkFetchEnv (fun _ => false) (fun _ => false)
    (fun _ => MetaRaise (MetaHTTP 404 "Not Found")).

(** Two requests time out, then the stop flag is read as set. *)
Definition fetch_env_stop3 : FetchEnv :=
  mkFetchEnv (fun a => Nat.eqb a 3) (fun _ => false)
    (fun _ => MetaRaise (MetaOther "Read timed out")).

(** Counts over a list of tracker writes. *)
Fixpoint cnt_inc (ops : list TrackerOp) : nat :=
  match ops with
  | [] => 0
  | (OpIncDownloaded | OpIncFailed) :: ops' => S (cnt_inc ops')
  | _ :: ops' => cnt_inc ops'
  end.

Fixpoint add_total (ops : list TrackerOp) : Z :=
  match ops with
  | [] => 0
  | OpAddTotal n :: ops' => (n + add_total ops')%Z
  | _ :: ops' => add_total ops'
  end.

(** A [DownloadWorker] for an album with track numbers. *)
Definition dw_album : DownloadWorkerCfg :=
  mkDW "/music/Album" true false "title_artist" true true None.

(** Two well-formed entries of a metadata track list, and one without its
    [external_urls] key. *)
Definition td_one : TrackData :=
  mkTrackData (Some "https://open.spotify.com/track/t1") (Some "One") (Some "A")
    (Some "Alb") (Some 1%Z) (Some 1000%Z) None None (Some "Alb").

Definition td_two : TrackData :=
  mkTrackData (Some "https://open.spotify.com/track/t2") (Some "Two") (Some "B")
    (Some "Alb") (Some 2%Z) None (Some "ISRC2") None None.

Definition td_broken : TrackData :=
  mkTrackData None (Some "Three") (Some "C") (Some "Alb") (Some 3%Z) None None None None.

(** A string without a slash. *)
Definition no_slash (s : string) : bool :=
  forallb (fun c => negb (Ascii.eqb c "/")) (list_ascii_of_string s).


(** Reading a decimal numeral back, to compare labels. *)
Definition is_digit (c : ascii) : bool :=
  (48 <=? nat_of_ascii c)%nat && (nat_of_ascii c <=? 57)%nat.

Definition all_digits (s : string) : bool := forallb is_digit (list_ascii_of_string s).

Fixpoint digits_val (v : nat) (s : string) : option nat :=
  match s with
  | EmptyString => Some v
  | String c s' => if is_digit c then digits_val (v * 10 + (nat_of_ascii c - 48)) s' else None
  end.

End Aux.

(* ------------------------------------------------------------------ *)
(** ** Proofs *)

Module Proofs.

Import Bulk Player Trace Samples.
Local Open Scope list_scope.

(** *** The bulk per-track loop *)

Definition bulk_retry (max : Z) (a : nat) (e : PyExc) : bool :=
  match e with
  | HTTPError code _ => (code =? 404)%Z && (Z.of_nat a <? max)%Z
  | OtherExc msg => (Z.of_nat a <? max)%Z && contains (lower msg) "404"
  end.

Definition bulk_fail_msg (e : PyExc) : string :=
  match e with
  | HTTPError code msg => ("HTTP " ++ Z_str code ++ ": " ++ msg)%string
  | OtherExc msg => msg
  end.

Lemma attempt_loop_raise cfg env t it max n a d svc e :
  te_stopped env a = false ->
  exists_nonempty (te_fs env a) (track_filepath cfg t it) = false ->
  isrc_service_name (service cfg) = Some svc ->
  String.eqb (isrc t) "" = false ->
  te_branch env a = BrRaise e ->
  attempt_loop cfg env t it max (S n) a d =
  if bulk_retry max a e then
    prepend [EvAttempt a; EvAdapter a; EvSleep d]
      (attempt_loop cfg env t it max n (S a) (retry_backoff d))
  else ((false, bulk_fail_msg e), [EvAttempt a; EvAdapter a]).
Proof.
  intros Hs Hf Hsvc Hi Hb. simpl. rewrite Hs, Hf, Hsvc, Hi, Hb.
  destruct e; reflexivity.
Qed.

Lemma attempt_numbers_app l1 l2 :
  attempt_numbers (l1 ++ l2) = attempt_numbers l1 ++ attempt_numbers l2.
Proof. induction l1 as [|[] l1 IH]; simpl; rewrite ?IH; reflexivity. Qed.

Lemma sleeps_app l1 l2 : sleeps (l1 ++ l2) = sleeps l1 ++ sleeps l2.
Proof. induction l1 as [|[] l1 IH]; simpl; rewrite ?IH; reflexivity. Qed.

Lemma adapter_calls_app l1 l2 :
  adapter_calls (l1 ++ l2) = (adapter_calls l1 + adapter_calls l2)%nat.
Proof. induction l1 as [|[] l1 IH]; simpl; rewrite ?IH; reflexivity. Qed.

(** Every attempt raising a 404-like error: all [max] attempts are made. *)
Lemma attempt_loop_all_404 cfg env t it max svc :
  isrc_service_name (service cfg) = Some svc ->
  String.eqb (isrc t) "" = false ->
  forall n a d,
  (1 <= n)%nat ->
  Z.of_nat (a + n) = (max + 1)%Z ->
  (forall b, (a <= b < a + n)%nat ->
     te_stopped env b = false /\
     exists_nonempty (te_fs env b) (track_filepath cfg t it) = false /\
     exists e, te_branch env b = BrRaise e /\ like404 e = true) ->
  fst (fst (attempt_loop cfg env t it max n a d)) = false /\
  attempt_numbers (snd (attempt_loop cfg env t it max n a d)) = seq a n.
Proof.
  intros Hsvc Hi n. induction n as [|n IH]; intros a d Hn Hmax Hb; [lia|].
  destruct (Hb a ltac:(lia)) as (Hs & Hf & e & He & H4).
  rewrite (attempt_loop_raise cfg env t it max n a d svc e Hs Hf Hsvc Hi He).
  destruct n as [|n].
  - assert (Hr : bulk_retry max a e = false).
    { destruct e; simpl in *; rewrite (proj2 (Z.ltb_ge _ _)) by lia;
      rewrite ?andb_false_r; reflexivity. }
    rewrite Hr. simpl. auto.
  - assert (Hr : bulk_retry max a e = true).
    { destruct e; simpl in *; rewrite (proj2 (Z.ltb_lt _ _)) by lia;
      rewrite H4; reflexivity. }
    rewrite Hr. unfold prepend. cbn [fst snd].
    destruct (IH (S a) (retry_backoff d)) as [IH1 IH2]; [lia|lia| |].
    + intros b Hb'. apply Hb. lia.
    + split; [exact IH1|]. rewrite attempt_numbers_app, IH2. reflexivity.
Qed.

(** The sleeps of the bulk loop follow the capped geometric sequence. *)
Lemma attempt_loop_sleeps cfg env t it max :
  forall n a d, exists k,
  sleeps (snd (attempt_loop cfg env t it max n a d)) = backoff_list d k.
Proof.
  induction n as [|n IH]; intros a d.
  - exists 0%nat. reflexivity.
  - simpl.
    destruct (te_stopped env a); [exists 0%nat; reflexivity|].
    destruct (exists_nonempty _ _); [exists 0%nat; reflexivity|].
    destruct (isrc_service_name _); [|exists 0%nat; reflexivity].
    destruct (String.eqb (isrc t) ""); [exists 0%nat; reflexivity|].
    destruct (te_branch env a) as [| |[code msg|msg]];
      try (exists 0%nat; reflexivity).
    + destruct (_ && _); [|exists 0%nat; reflexivity].
      destruct (IH (S a) (retry_backoff d)) as [k Hk].
      exists (S k). unfold prepend. cbn [fst snd]. rewrite sleeps_app, Hk. reflexivity.
    + destruct (_ && _); [|exists 0%nat; reflexivity].
      destruct (IH (S a) (retry_backoff d)) as [k Hk].
      exists (S k). unfold prepend. cbn [fst snd]. rewrite sleeps_app, Hk. reflexivity.
Qed.

Lemma retry_backoff_bounds d :
  0 <= d <= 30 -> d <= retry_backoff d /\ retry_backoff d <= 30.
Proof.
  intros [H0 H30]. unfold retry_backoff, pymin.
  destruct (Qlt_le_dec 30 (d * (3 # 2))) as [Hlt|Hle]; split; lra.
Qed.

Lemma backoff_list_props d k :
  0 <= d <= 30 ->
  Sorted Qle (backoff_list d k) /\ Forall (fun x => 0 <= x <= 30) (backoff_list d k).
Proof.
  revert d. induction k as [|k IH]; intros d Hd; simpl.
  - split; constructor.
  - destruct (retry_backoff_bounds d Hd) as [H1 H2].
    destruct (IH (retry_backoff d) ltac:(lra)) as [IHs IHf].
    split.
    + constructor; [exact IHs|].
      destruct k; simpl; constructor. exact H1.
    + constructor; [exact Hd|exact IHf].
Qed.

(** *** The cache worker's loop *)

Lemma cache_attempts_all_retryable cd svc env t :
  forall n a,
  (1 <= n)%nat -> (a + n = 4)%nat ->
  (forall b, (a <= b < a + n)%nat ->
     exists e, perform_download cd svc (ce_fs env b) (ce_adapter env b) t = PDRaise e /\
               cache_retryable e = true) ->
  (exists m, fst (cache_attempts cd svc env t n a) = CErr m) /\
  attempt_numbers (snd (cache_attempts cd svc env t n a)) = seq a n.
Proof.
  induction n as [|n IH]; intros a Hn Ha Hb; [lia|].
  destruct (Hb a ltac:(lia)) as (e & He & Hr).
  cbn [cache_attempts]. rewrite He.
  destruct n as [|n].
  - assert (Hlt : Nat.ltb a MAX_DOWNLOAD_RETRIES = false)
      by (apply Nat.ltb_ge; unfold MAX_DOWNLOAD_RETRIES; lia).
    destruct e as [code msg|msg]; simpl in Hr;
      rewrite ?Hr, Hlt; cbn [andb fst snd];
      (split; [eexists; reflexivity|]);
      destruct (_ && _); reflexivity.
  - assert (Hlt : Nat.ltb a MAX_DOWNLOAD_RETRIES = true)
      by (apply Nat.ltb_lt; unfold MAX_DOWNLOAD_RETRIES; lia).
    destruct (IH (S a) ltac:(lia) ltac:(lia)) as [IH1 IH2].
    { intros b Hb'. apply Hb. lia. }
    destruct e as [code msg|msg]; simpl in Hr;
      rewrite ?Hr, Hlt; cbn [andb fst snd];
      (split; [exact IH1|]);
      rewrite !attempt_numbers_app, IH2;
      destruct (_ && _); reflexivity.
Qed.

Lemma cache_attempts_sleeps cd svc env t :
  forall n a,
  Forall (fun x => x = RETRY_DELAY_SECONDS) (sleeps (snd (cache_attempts cd svc env t n a))).
Proof.
  induction n as [|n IH]; intros a; [constructor|].
  cbn [cache_attempts].
  destruct (perform_download cd svc (ce_fs env a) (ce_adapter env a) t)
    as [cf fs'|[code msg|msg]]; cbn [fst snd].
  - constructor.
  - destruct (_ && Nat.ltb a MAX_DOWNLOAD_RETRIES); cbn [fst snd];
      rewrite ?sleeps_app; destruct (_ && _); simpl;
      try constructor; auto.
  - destruct (Nat.ltb a MAX_DOWNLOAD_RETRIES); cbn [fst snd];
      rewrite ?sleeps_app; destruct (_ && _); simpl;
      try constructor; auto.
Qed.

(** *** Claim C9 *)

Ltac close_single :=
  repeat split; intros; simpl in *; first [reflexivity | discriminate].

(** C9: with [retry_404_enabled = False] the bulk per-track download runs
    exactly one attempt and never sleeps; an error raised by the adapter on
    that attempt marks the track failed. *)
Theorem retry_disabled_single_attempt cfg env t it :
  retry_404_enabled cfg = false ->
  attempt_numbers (snd (download_single_track_with_retry cfg env t it)) = [1%nat] /\
  sleeps (snd (download_single_track_with_retry cfg env t it)) = [] /\
  (forall e, te_branch env 1 = BrRaise e ->
     adapter_calls (snd (download_single_track_with_retry cfg env t it)) = 1%nat ->
     fst (fst (download_single_track_with_retry cfg env t it)) = false).
Proof.
  intros Hen. unfold download_single_track_with_retry. rewrite Hen.
  change (Z.to_nat (if false then retry_404_max_attempts cfg else 1%Z)) with 1%nat.
  simpl attempt_loop.
  destruct (te_stopped env 1); [close_single|].
  destruct (exists_nonempty _ _); [close_single|].
  destruct (isrc_service_name _); [|close_single].
  destruct (String.eqb (isrc t) ""); [close_single|].
  destruct (te_branch env 1) as [| |[code msg|msg]]; [close_single ..| |].
  - rewrite andb_false_r. close_single.
  - close_single.
Qed.

Lemma retry_disabled_single_attempt_witness :
  retry_404_enabled no_retry_config = false /\
  attempt_numbers
    (snd (download_single_track_with_retry no_retry_config
            (env_const (BrRaise (HTTPError 404 "404 Client Error"))) song album_item))
  = [1%nat].
Proof.
  split; [reflexivity|].
  exact (proj1 (retry_disabled_single_attempt no_retry_config
                  (env_const (BrRaise (HTTPError 404 "404 Client Error")))
                  song album_item eq_refl)).
Defined.

(** *** Claim C2 *)

(** C2 as stated fails: with the default configuration (10 attempts), a
    connection error whose text has no 404 in it fails the bulk track at the
    first attempt, and an HTTP 503 fails the cache worker's track at the
    first attempt. *)
Lemma transient_error_not_retried :
  fst (fst (download_single_track_with_retry default_config
              (env_const (BrRaise (OtherExc "Connection reset by peer"))) song album_item))
    = false /\
  attempt_numbers (snd (download_single_track_with_retry default_config
              (env_const (BrRaise (OtherExc "Connection reset by peer"))) song album_item))
    = [1%nat] /\
  retry_404_max_attempts default_config = 10%Z /\
  fst (download_with_retry "/cache" "tidal"
         (cache_env_const (CARaise (HTTPError 503 "503 Server Error"))) csong)
    = CErr "503 Server Error" /\
  attempt_numbers (snd (download_with_retry "/cache" "tidal"
         (cache_env_const (CARaise (HTTPError 503 "503 Server Error"))) csong))
    = [1%nat].
Proof. repeat split; vm_compute; reflexivity. Qed.

(** C2 (amended): which errors are retried.  In the bulk flow an error
    is retried, up to the configured maximum, exactly when it looks like a
    404 (an HTTP 404, or another exception whose text contains 404); any
    other error, transient or not, fails the track at once.  In the cache
    worker every non-HTTP exception and an HTTP 404 are retried up to 3
    attempts, while any other HTTP error fails the track at once. *)
Theorem retry_policy_by_error_kind :
  (forall cfg env t it svc,
     retry_404_enabled cfg = true ->
     (1 <= retry_404_max_attempts cfg)%Z ->
     isrc_service_name (service cfg) = Some svc ->
     String.eqb (isrc t) "" = false ->
     (forall b, (1 <= b <= Z.to_nat (retry_404_max_attempts cfg))%nat ->
        te_stopped env b = false /\
        exists_nonempty (te_fs env b) (track_filepath cfg t it) = false /\
        exists e, te_branch env b = BrRaise e /\ like404 e = true) ->
     fst (fst (download_single_track_with_retry cfg env t it)) = false /\
     attempt_numbers (snd (download_single_track_with_retry cfg env t it))
       = seq 1 (Z.to_nat (retry_404_max_attempts cfg))) /\
  (forall cfg env t it svc e,
     (retry_404_enabled cfg = true -> (1 <= retry_404_max_attempts cfg)%Z) ->
     te_stopped env 1 = false ->
     exists_nonempty (te_fs env 1) (track_filepath cfg t it) = false ->
     isrc_service_name (service cfg) = Some svc ->
     String.eqb (isrc t) "" = false ->
     te_branch env 1 = BrRaise e ->
     like404 e = false ->
     fst (download_single_track_with_retry cfg env t it) = (false, bulk_fail_msg e) /\
     attempt_numbers (snd (download_single_track_with_retry cfg env t it)) = [1%nat]) /\
  (forall cd svc env t,
     (forall b, (1 <= b <= 3)%nat ->
        exists e, perform_download cd svc (ce_fs env b) (ce_adapter env b) t = PDRaise e /\
                  cache_retryable e = true) ->
     (exists m, fst (download_with_retry cd svc env t) = CErr m) /\
     attempt_numbers (snd (download_with_retry cd svc env t)) = [1; 2; 3]%nat) /\
  (forall cd svc env t code msg,
     perform_download cd svc (ce_fs env 1) (ce_adapter env 1) t = PDRaise (HTTPError code msg) ->
     code <> 404%Z ->
     fst (download_with_retry cd svc env t) = CErr msg /\
     attempt_numbers (snd (download_with_retry cd svc env t)) = [1%nat]).
Proof.
  split; [|split; [|split]].
  - intros cfg env t it svc Hen Hmax Hsvc Hi Hb.
    unfold download_single_track_with_retry. rewrite Hen.
    apply (attempt_loop_all_404 cfg env t it _ svc Hsvc Hi); [lia|lia|].
    intros b Hb'. apply Hb. lia.
  - intros cfg env t it svc e Hmax Hs Hf Hsvc Hi Hb H4.
    unfold download_single_track_with_retry.
    assert (Hn : exists n, Z.to_nat (if retry_404_enabled cfg then retry_404_max_attempts cfg
                                     else 1%Z) = S n).
    { destruct (retry_404_enabled cfg).
      - exists (Nat.pred (Z.to_nat (retry_404_max_attempts cfg))).
        specialize (Hmax eq_refl). lia.
      - exists 0%nat. reflexivity. }
    destruct Hn as [n Hn]. rewrite Hn.
    rewrite (attempt_loop_raise cfg env t it _ n 1 _ svc e Hs Hf Hsvc Hi Hb).
    assert (Hr : bulk_retry (if retry_404_enabled cfg then retry_404_max_attempts cfg else 1%Z) 1 e
                 = false).
    { destruct e; simpl in *; rewrite H4; auto using andb_false_r. }
    rewrite Hr. split; reflexivity.
  - intros cd svc env t Hb. unfold download_with_retry.
    apply cache_attempts_all_retryable; [unfold MAX_DOWNLOAD_RETRIES; lia
                                       |unfold MAX_DOWNLOAD_RETRIES; lia|].
    intros b Hb'. apply Hb. unfold MAX_DOWNLOAD_RETRIES in Hb'. lia.
  - intros cd svc env t code msg Hp Hc. unfold download_with_retry.
    cbn [MAX_DOWNLOAD_RETRIES cache_attempts]. rewrite Hp.
    rewrite (proj2 (Z.eqb_neq _ _) Hc). cbn [andb fst snd].
    split; [reflexivity|]. destruct (_ && _); reflexivity.
Qed.

Lemma retry_policy_by_error_kind_witness :
  attempt_numbers (snd (download_single_track_with_retry default_config
    (env_const (BrRaise (HTTPError 404 "404 Client Error"))) song album_item))
    = seq 1 10 /\
  fst (download_single_track_with_retry default_config
    (env_const (BrRaise (OtherExc "Connection reset by peer"))) song album_item)
    = (false, "Connection reset by peer") /\
  attempt_numbers (snd (download_with_retry "/cache" "tidal"
    (cache_env_const (CARaise (OtherExc "Connection aborted"))) csong)) = [1; 2; 3]%nat /\
  fst (download_with_retry "/cache" "tidal"
    (cache_env_const (CARaise (HTTPError 503 "503 Server Error"))) csong)
    = CErr "503 Server Error".
Proof.
  destruct retry_policy_by_error_kind as (P1 & P2 & P3 & P4).
  split; [|split; [|split]].
  - refine (proj2 (P1 default_config _ song album_item "Tidal" _ _ _ _ _));
      [reflexivity|cbv; discriminate|reflexivity|reflexivity|].
    intros b Hb. split; [reflexivity|]. split; [reflexivity|].
    eexists; split; reflexivity.
  - refine (proj1 (P2 default_config _ song album_item "Tidal"
                     (OtherExc "Connection reset by peer") _ _ _ _ _ _ _));
      [intros _; cbv; discriminate|reflexivity..].
  - refine (proj2 (P3 "/cache" "tidal" _ csong _)).
    intros b Hb. eexists; split; reflexivity.
  - refine (proj1 (P4 "/cache" "tidal" _ csong 503%Z "503 Server Error" _ _));
      [reflexivity|discriminate].
Defined.

(** *** Claim C3 *)

(** C3 as stated fails: the cache worker waits a constant 2 seconds, so
    after two failed attempts its sleeps are 2 then 2, where the claimed
    schedule would follow 2 with min(2 * 1.5, 30) = 3. *)
Lemma cache_delay_not_geometric :
  sleeps (snd (download_with_retry "/cache" "tidal" cache_env_third_ok csong)) = [2; 2] /\
  fst (download_with_retry "/cache" "tidal" cache_env_third_ok csong)
    = COk "/cache/Song - Artist.flac" /\
  ~ (2 == retry_backoff 2).
Proof.
  split; [vm_compute; reflexivity|]. split; [vm_compute; reflexivity|].
  unfold retry_backoff, pymin. destruct (Qlt_le_dec 30 (2 * (3 # 2))); lra.
Qed.

(** C3 (amended): the bulk per-track loop sleeps d0, min(d0 * 1.5, 30), ...
    from the configured base [retry_404_delay] (3 by default); for a base
    between 0 and 30 that sequence never decreases and never exceeds 30.
    The cache worker's retries all sleep the constant 2 seconds. *)
Theorem backoff_schedule :
  (forall cfg env t it, exists k,
     sleeps (snd (download_single_track_with_retry cfg env t it))
     = backoff_list (inject_Z (retry_404_delay cfg)) k) /\
  (forall d k, 0 <= d <= 30 ->
     Sorted Qle (backoff_list d k) /\ Forall (fun x => x <= 30) (backoff_list d k)) /\
  (forall cd svc env t,
     Forall (fun x => x = RETRY_DELAY_SECONDS) (sleeps (snd (download_with_retry cd svc env t)))).
Proof.
  split; [|split].
  - intros cfg env t it. apply attempt_loop_sleeps.
  - intros d k Hd. destruct (backoff_list_props d k Hd) as [Hs Hf].
    split; [exact Hs|]. eapply Forall_impl; [|exact Hf]. intros x [_ Hx]. exact Hx.
  - intros cd svc env t. apply cache_attempts_sleeps.
Qed.

Lemma backoff_schedule_witness :
  0 <= inject_Z (retry_404_delay default_config) <= 30 /\
  Sorted Qle (backoff_list (inject_Z (retry_404_delay default_config)) 9%nat).
Proof.
  assert (H : 0 <= inject_Z (retry_404_delay default_config) <= 30)
    by (unfold default_config; simpl; split; vm_compute; discriminate).
  split; [exact H|].
  exact (proj1 (proj1 (proj2 backoff_schedule) _ 9%nat H)).
Defined.

(** *** Claim C6 *)

(** C6 as stated fails: when the stop flag is read as set at the first
    attempt, a track whose destination already exists is not reported as a
    success. *)
Lemma existing_file_stopped_not_success :
  exists_nonempty (te_fs (env_existing true) 1) (track_filepath default_config song album_item)
    = true /\
  fst (download_single_track_with_retry default_config (env_existing true) song album_item)
    = (false, "Stopped by user").
Proof. split; vm_compute; reflexivity. Qed.

(** C6 (amended): with at least one attempt configured, a bulk track whose
    destination exists with non-zero size never reaches the adapter and
    never sleeps; it is reported as [File already exists] unless the stop
    flag is read as set first, in which case it is reported as stopped.
    [DownloadWorker.run] likewise skips such a track without downloading,
    unless it is stopped. *)
Theorem existing_destination_no_adapter_call :
  (forall cfg env t it,
     (retry_404_enabled cfg = true -> (1 <= retry_404_max_attempts cfg)%Z) ->
     exists_nonempty (te_fs env 1) (track_filepath cfg t it) = true ->
     adapter_calls (snd (download_single_track_with_retry cfg env t it)) = 0%nat /\
     sleeps (snd (download_single_track_with_retry cfg env t it)) = [] /\
     fst (download_single_track_with_retry cfg env t it)
     = (if te_stopped env 1 then (false, "Stopped by user")
        else (true, "File already exists"))) /\
  (forall w stopped fs t,
     exists_nonempty fs (dw_new_filepath w t) = true ->
     dw_track_action w stopped fs t = if stopped then DWReturn else DWSkipExisting).
Proof.
  split.
  - intros cfg env t it Hmax He.
    unfold download_single_track_with_retry.
    assert (Hn : exists n, Z.to_nat (if retry_404_enabled cfg then retry_404_max_attempts cfg
                                     else 1%Z) = S n).
    { destruct (retry_404_enabled cfg).
      - exists (Nat.pred (Z.to_nat (retry_404_max_attempts cfg))).
        specialize (Hmax eq_refl). lia.
      - exists 0%nat. reflexivity. }
    destruct Hn as [n Hn]. rewrite Hn. simpl attempt_loop.
    destruct (te_stopped env 1); [repeat split; reflexivity|].
    rewrite He. repeat split; reflexivity.
  - intros w stopped fs t He. unfold dw_track_action.
    destruct stopped; [reflexivity|]. rewrite He. reflexivity.
Qed.

Lemma existing_destination_no_adapter_call_witness :
  adapter_calls (snd (download_single_track_with_retry default_config
                        (env_existing false) song album_item)) = 0%nat /\
  fst (download_single_track_with_retry default_config (env_existing false) song album_item)
    = (true, "File already exists").
Proof.
  destruct (proj1 existing_destination_no_adapter_call default_config
              (env_existing false) song album_item
              (fun _ => ltac:(vm_compute; discriminate)) ltac:(vm_compute; reflexivity))
    as (H1 & _ & H3).
  split; [exact H1|exact H3].
Defined.

(** *** Claim C4 *)

(** C4 (code defect): a track whose download ends with Tidal's stop
    sentinel, or with the stop flag read before its first attempt, is
    appended to the item's [failed_tracks]. *)
Theorem stopped_track_recorded_as_failed :
  map failed_tracks
    (track_loop default_config (fun _ => env_const BrStopSentinel) (fun _ => false)
       0 [song] album_item)
  = [[("Song", "Artist", "Download stopped by user")]] /\
  map failed_tracks
    (track_loop default_config (fun _ => env_stopped_first) (fun _ => false)
       0 [song] album_item)
  = [[("Song", "Artist", "Stopped by user")]].
Proof. split; vm_compute; reflexivity. Qed.

(** *** Claim C5 *)

(** C5 (code defect): the cache worker moves a zero-byte download into the
    cache and records it as the track's cached file; [DownloadWorker.run]
    then copies that zero-byte file to the destination, although the cache
    worker's own cache-hit test refuses it. *)
Theorem zero_byte_cache_file_used :
  fst (download_with_retry "/cache" "tidal" cache_env_zero_byte csong)
    = COk "/cache/Song - Artist.flac" /\
  option_map (fun fs => fs "/cache/Song - Artist.flac")
    (cache_attempts_fs "/cache" "tidal" cache_env_zero_byte csong MAX_DOWNLOAD_RETRIES 1)
    = Some (Some 0%Z) /\
  exists_nonempty cached_zero_fs "/cache/Song - Artist.flac" = false /\
  dw_track_action dw_single false cached_zero_fs
    (set_cache_fields csong "/cache/Song - Artist.flac" false "")
    = DWCopyFromCache "/cache/Song - Artist.flac".
Proof. repeat split; vm_compute; reflexivity. Qed.

(** *** Claim C7 *)

Lemma apply_ops_processed_urls :
  forall ops tr, processed_urls tr = 0%Z -> processed_urls (apply_ops tr ops) = 0%Z.
Proof.
  induction ops as [|op ops IH]; intros tr H; [exact H|].
  unfold apply_ops. simpl. apply IH. destruct op; exact H.
Qed.

(** C7 (code defect): the manager never writes the tracker's
    [processed_urls], so every event's [progress_percentage] is 0 while its
    own [processed_urls] field is [current_url_index + 1]; the first event of
    a two-URL run reports 1 of 2 URLs processed and 0 percent. *)
Theorem progress_percentage_stuck_at_zero :
  (forall ops items,
     pd_progress_percentage (emit_progress_update (apply_ops new_tracker ops) items) == 0) /\
  pd_total_urls (emit_progress_update (apply_ops new_tracker [OpStart 2; OpSetIndex 0]) [])
    = 2%Z /\
  pd_processed_urls (emit_progress_update (apply_ops new_tracker [OpStart 2; OpSetIndex 0]) [])
    = 1%Z /\
  pd_progress_percentage (emit_progress_update (apply_ops new_tracker [OpStart 2; OpSetIndex 0]) [])
    == 0 /\
  ~ (0 == (inject_Z 1 / inject_Z 2) * 100).
Proof.
  split; [|split; [reflexivity|split; [reflexivity|split; [vm_compute; reflexivity|]]]].
  - intros ops items. simpl. unfold get_progress_percentage.
    rewrite (apply_ops_processed_urls ops new_tracker eq_refl).
    destruct (total_urls _ =? 0)%Z; [reflexivity|].
    unfold Qeq. simpl. reflexivity.
  - vm_compute. discriminate.
Qed.

(** *** Claim C8 *)

Lemma url_accepted_iff u :
  url_accepted u = true <->
  u <> "" /\ startswith u "#" = false /\ contains u "spotify.com" = true.
Proof.
  unfold url_accepted.
  destruct (String.eqb_spec u ""), (startswith u "#"), (contains u "spotify.com");
    simpl; intuition congruence.
Qed.

Lemma collect_items_spec :
  forall ls k u n,
  In (u, Z.of_nat n) (map (fun it => (url it, line_number it)) (collect_items k ls)) <->
  exists l, (k <= n)%nat /\ nth_error ls (n - k) = Some l /\
            url_accepted (strip l) = true /\ u = strip l.
Proof.
  induction ls as [|l ls IH]; intros k u n.
  - simpl. split; [intros []|].
    intros (l & _ & Hn & _). destruct (n - k)%nat; discriminate.
  - simpl. destruct (url_accepted (strip l)) eqn:Ha.
    + simpl. rewrite IH. split.
      * intros [Heq|(l' & Hk & Hn & Ha' & Hu)].
        -- injection Heq as Hu Hn. apply Nat2Z.inj in Hn. subst.
           exists l. rewrite Nat.sub_diag. auto.
        -- exists l'. split; [lia|]. replace (n - k)%nat with (S (n - S k)) by lia.
           auto.
      * intros (l' & Hk & Hn & Ha' & Hu).
        destruct (Nat.eq_dec n k) as [->|Hne].
        -- left. rewrite Nat.sub_diag in Hn. injection Hn as ->. subst. reflexivity.
        -- right. exists l'. replace (n - k)%nat with (S (n - S k)) in Hn by lia.
           split; [lia|]. auto.
    + rewrite IH. split.
      * intros (l' & Hk & Hn & Ha' & Hu).
        exists l'. split; [lia|]. replace (n - k)%nat with (S (n - S k)) by lia. auto.
      * intros (l' & Hk & Hn & Ha' & Hu).
        destruct (Nat.eq_dec n k) as [->|Hne].
        -- rewrite Nat.sub_diag in Hn. injection Hn as ->. congruence.
        -- exists l'. replace (n - k)%nat with (S (n - S k)) in Hn by lia.
           split; [lia|]. auto.
Qed.

Lemma collect_items_sorted :
  forall ls k,
  Sorted Z.lt (map line_number (collect_items k ls)) /\
  Forall (fun z => (Z.of_nat k <= z)%Z) (map line_number (collect_items k ls)).
Proof.
  induction ls as [|l ls IH]; intros k; simpl; [split; constructor|].
  destruct (IH (S k)) as [Hs Hf].
  destruct (url_accepted (strip l)); simpl.
  - split.
    + constructor; [exact Hs|].
      destruct (map line_number (collect_items (S k) ls)) as [|z zs]; constructor.
      inversion Hf; subst. lia.
    + constructor; [lia|]. eapply Forall_impl; [|exact Hf]. simpl. lia.
  - split; [exact Hs|]. eapply Forall_impl; [|exact Hf]. simpl. lia.
Qed.

Lemma collect_items_fresh :
  forall ls k, Forall (fun it => it = new_item (url it) (line_number it)) (collect_items k ls).
Proof.
  induction ls as [|l ls IH]; intros k; simpl; [constructor|].
  destruct (url_accepted (strip l)); [constructor; [reflexivity|]|]; apply IH.
Qed.

Lemma collect_items_nil :
  forall ls k, collect_items k ls = [] <-> Forall (fun l => url_accepted (strip l) = false) ls.
Proof.
  induction ls as [|l ls IH]; intros k; simpl; [split; constructor|].
  destruct (url_accepted (strip l)) eqn:Ha.
  - split; [discriminate|]. intros H. inversion H; congruence.
  - rewrite IH. split; [intros H; constructor; assumption|].
    intros H. inversion H; assumption.
Qed.

(** C8: the loader keeps exactly the lines that are non-empty after
    [strip()], do not start with [#] and contain [spotify.com], as fresh
    items carrying the stripped line and its 1-based line number, in file
    order; when no line qualifies, loading fails and the run processes no
    item.  On a file with two valid lines, a comment and a blank line it
    yields exactly two items. *)
Theorem load_urls_selects_valid_lines :
  (forall content u n,
     In (u, Z.of_nat n)
        (map (fun it => (url it, line_number it)) (collect_items 1 (readlines content))) <->
     exists l, (1 <= n)%nat /\ nth_error (readlines content) (n - 1) = Some l /\
       strip l <> "" /\ startswith (strip l) "#" = false /\
       contains (strip l) "spotify.com" = true /\ u = strip l) /\
  (forall content,
     Sorted Z.lt (map line_number (collect_items 1 (readlines content))) /\
     Forall (fun it => it = new_item (url it) (line_number it))
       (collect_items 1 (readlines content)) /\
     load_urls_from_file content =
       match collect_items 1 (readlines content) with
       | [] => None
       | items => Some items
       end) /\
  (forall content,
     load_urls_from_file content = None <->
     Forall (fun l => url_accepted (strip l) = false) (readlines content)) /\
  (forall content, load_urls_from_file content = None -> run_items content = []) /\
  map (fun it => (url it, line_number it)) (run_items batch_file) =
    [("https://open.spotify.com/track/4uLU6hMCjMI75M1A2tKUQC", 1%Z);
     ("https://open.spotify.com/playlist/37i9dQZF1DXcBWIGoYBM5M", 4%Z)].
Proof.
  split; [|split; [|split; [|split]]].
  - intros content u n. rewrite collect_items_spec.
    split.
    + intros (l & Hk & Hn & Ha & Hu). exists l.
      apply url_accepted_iff in Ha. destruct Ha as (H1 & H2 & H3).
      repeat split; assumption.
    + intros (l & Hk & Hn & H1 & H2 & H3 & Hu). exists l.
      repeat split; auto. apply url_accepted_iff. auto.
  - intros content. split; [apply collect_items_sorted|].
    split; [apply collect_items_fresh|reflexivity].
  - intros content. unfold load_urls_from_file. rewrite <- (collect_items_nil _ 1).
    destruct (collect_items 1 (readlines content)); split; congruence.
  - intros content H. unfold run_items. rewrite H. reflexivity.
  - vm_compute. reflexivity.
Qed.

Lemma load_urls_selects_valid_lines_witness :
  load_urls_from_file ("# only a comment" ++ nl) = None /\
  run_items ("# only a comment" ++ nl) = [].
Proof.
  assert (H : load_urls_from_file ("# only a comment" ++ nl) = None) by reflexivity.
  split; [exact H|].
  exact (proj1 (proj2 (proj2 (proj2 load_urls_selects_valid_lines))) _ H).
Defined.

(** *** Claim C1 *)

Lemma last_default_irrel {A} (x : A) (l : list A) d d' :
  last (d :: x :: l) d' = last (x :: l) d.
Proof.
  revert x. induction l as [|y l IH]; intros x; [reflexivity|].
  change (last (d :: x :: y :: l) d') with (last (x :: y :: l) d').
  change (last (x :: y :: l) d) with (last (y :: l) d).
  change (last (x :: y :: l) d') with (last (y :: l) d').
  destruct l; [reflexivity|]. simpl. simpl in IH. apply (IH y).
Qed.

Lemma record_result_counters it t r :
  counters (record_result it t r) = S (counters it) /\
  tracks_count (record_result it t r) = tracks_count it.
Proof.
  unfold record_result, counters. destruct (fst r); simpl; [lia|].
  rewrite length_app. simpl. lia.
Qed.

Lemma track_loop_counters cfg envs stop :
  forall ts i it,
  Forall (fun s => tracks_count s = tracks_count it /\
                   (counters s <= counters it + List.length ts)%nat)
    (track_loop cfg envs stop i ts it) /\
  ((forall j, (i <= j < i + List.length ts)%nat -> stop j = false) ->
   counters (last (track_loop cfg envs stop i ts it) it) = (counters it + List.length ts)%nat).
Proof.
  induction ts as [|t ts IH]; intros i it; simpl.
  - split; [constructor|]. intros _. lia.
  - destruct (stop i) eqn:Hs.
    + split; [constructor|]. intros H. specialize (H i ltac:(lia)). congruence.
    + set (it' := record_result it t _).
      destruct (record_result_counters it t
                  (fst (download_single_track_with_retry cfg (envs i) t it)))
        as [Hc Ht].
      fold it' in Hc, Ht.
      destruct (IH (S i) it') as [IHf IHl].
      split.
      * constructor; [split; [exact Ht|lia]|].
        eapply Forall_impl; [|exact IHf]. simpl. intros s [H1 H2]. split; lia.
      * intros Hno.
        destruct (track_loop cfg envs stop (S i) ts it') eqn:Htl.
        -- simpl. rewrite Hc. destruct ts; simpl in *; [lia|].
           specialize (Hno (S i) ltac:(lia)). rewrite Hno in Htl. discriminate.
        -- assert (Hl : last (it' :: b :: l) it = last (b :: l) it')
             by (rewrite last_default_irrel; destruct l; reflexivity).
           rewrite Hl, IHl; [lia|]. intros j Hj. apply Hno. lia.
Qed.

Lemma in_last {A} (l : list A) d : In (last l d) (d :: l).
Proof.
  induction l as [|x l IH]; [left; reflexivity|].
  destruct l as [|y l]; [right; left; reflexivity|].
  change (last (x :: y :: l) d) with (last (y :: l) d).
  destruct IH as [H|H]; [left; exact H|right; right; exact H].
Qed.

(** C1: at every state [_process_single_url] takes a freshly loaded item
    through, [downloaded_count + len(failed_tracks) <= tracks_count]; when
    the metadata fetch succeeded and the track loop ran over all the tracks
    without a stop request, the item's final state has equality. *)
Theorem item_counters_bounded :
  (forall cfg envs stop has_downloader fr u n,
     Forall (fun it => (downloaded_count it + List.length (failed_tracks it) <= tracks_count it)%nat)
       (process_single_url cfg envs stop has_downloader fr (new_item u n))) /\
  (forall cfg envs stop ty ti ts u n,
     (forall i, (i < List.length (tracks (apply_fetch (new_item u n) ty ti ts)))%nat ->
        stop i = false) ->
     let fin := last (process_single_url cfg envs stop true (FetchOk ty ti ts) (new_item u n))
                     (new_item u n) in
     (downloaded_count fin + List.length (failed_tracks fin))%nat = tracks_count fin).
Proof.
  split.
  - intros cfg envs stop has_dl fr u n.
    destruct fr as [ty ti ts|msg]; simpl process_single_url;
      [|repeat constructor].
    set (it1 := apply_fetch (new_item u n) ty ti ts).
    set (it2 := set_output it1 (prepare_output_directory cfg it1)).
    assert (H2 : counters it2 = 0%nat /\ tracks_count it2 = List.length (tracks it2))
      by (subst it2 it1; unfold apply_fetch; simpl; split; reflexivity).
    destruct H2 as [H2c H2t].
    destruct has_dl; simpl negb; cbv iota.
    + destruct (track_loop_counters cfg envs stop (tracks it2) 0 it2) as [Hf _].
      assert (Hall : Forall (fun s => (counters s <= tracks_count s)%nat)
                       (it2 :: track_loop cfg envs stop 0 (tracks it2) it2)).
      { constructor; [lia|]. eapply Forall_impl; [|exact Hf].
        intros s [Ht Hc]. lia. }
      assert (Hfin : (counters (last (track_loop cfg envs stop 0 (tracks it2) it2) it2)
                      <= tracks_count (last (track_loop cfg envs stop 0 (tracks it2) it2) it2))%nat).
      { rewrite Forall_forall in Hall. apply Hall. apply in_last. }
      constructor; [simpl; lia|].
      constructor; [subst it1; unfold apply_fetch; simpl; lia|].
      constructor; [unfold counters in H2c; lia|].
      apply Forall_app. split.
      * inversion Hall; subst. eapply Forall_impl; [|eassumption].
        intros s Hs. unfold counters in Hs. exact Hs.
      * constructor; [|constructor].
        destruct (failed_tracks _); unfold counters in Hfin; simpl; exact Hfin.
    + repeat constructor; simpl;
        unfold counters in H2c; subst it2 it1; unfold apply_fetch in *; simpl in *; lia.
  - intros cfg envs stop ty ti ts u n Hno fin.
    subst fin. unfold process_single_url. cbv beta iota zeta delta [negb].
    set (it1 := apply_fetch (new_item u n) ty ti ts).
    set (it2 := set_output it1 (prepare_output_directory cfg it1)).
    assert (H2 : counters it2 = 0%nat /\ tracks_count it2 = List.length (tracks it2))
      by (subst it2 it1; unfold apply_fetch; simpl; split; reflexivity).
    destruct H2 as [H2c H2t].
    destruct (track_loop_counters cfg envs stop (tracks it2) 0 it2) as [Hf Hl].
    specialize (Hl ltac:(intros j Hj; apply Hno; exact (proj2 Hj))).
    assert (Htc : tracks_count (last (track_loop cfg envs stop 0 (tracks it2) it2) it2)
                  = tracks_count it2).
    { pose proof (in_last (track_loop cfg envs stop 0 (tracks it2) it2) it2) as Hin.
      destruct Hin as [<-|Hin]; [reflexivity|].
      rewrite Forall_forall in Hf. apply (Hf _ Hin). }
    rewrite app_assoc, last_last.
    rewrite H2c in Hl.
    set (L := last (track_loop cfg envs stop 0 (tracks it2) it2) it2) in *.
    unfold counters in Hl.
    assert (Hg : (downloaded_count L + List.length (failed_tracks L))%nat
                 = List.length (tracks it2)) by lia.
    clearbody L. destruct (failed_tracks L) eqn:Hft; simpl; rewrite Htc, H2t; rewrite ?Hft; exact Hg.
Qed.

Lemma item_counters_bounded_witness :
  (forall i, (i < List.length (tracks (apply_fetch
     (new_item "https://open.spotify.com/album/xyz" 1) "album" "Album" [song; song])))%nat ->
     (fun _ : nat => false) i = false) /\
  (downloaded_count (last (process_single_url default_config (fun _ => env_const BrDone)
      (fun _ => false) true (FetchOk "album" "Album" [song; song])
      (new_item "https://open.spotify.com/album/xyz" 1))
      (new_item "https://open.spotify.com/album/xyz" 1))
   + List.length (failed_tracks (last (process_single_url default_config (fun _ => env_const BrDone)
      (fun _ => false) true (FetchOk "album" "Album" [song; song])
      (new_item "https://open.spotify.com/album/xyz" 1))
      (new_item "https://open.spotify.com/album/xyz" 1))))%nat
  = tracks_count (last (process_single_url default_config (fun _ => env_const BrDone)
      (fun _ => false) true (FetchOk "album" "Album" [song; song])
      (new_item "https://open.spotify.com/album/xyz" 1))
      (new_item "https://open.spotify.com/album/xyz" 1)).
Proof.
  assert (H : forall i, (i < List.length (tracks (apply_fetch
     (new_item "https://open.spotify.com/album/xyz" 1) "album" "Album" [song; song])))%nat ->
     (fun _ : nat => false) i = false) by (intros; reflexivity).
  split; [exact H|].
  exact (proj2 item_counters_bounded default_config (fun _ => env_const BrDone)
           (fun _ => false) "album" "Album" [song; song]
           "https://open.spotify.com/album/xyz" 1%Z H).
Defined.

(** *** Claim C10 *)

Lemma update_nth_length {A} (k : nat) (f : A -> A) (l : list A) :
  List.length (update_nth k f l) = List.length l.
Proof.
  revert k. induction l as [|x l IH]; intros [|k]; simpl; auto.
Qed.

Lemma nth_error_update_nth {A} (k k' : nat) (f : A -> A) (l : list A) :
  nth_error (update_nth k f l) k' =
  if Nat.eqb k k' then option_map f (nth_error l k') else nth_error l k'.
Proof.
  revert k k'. induction l as [|x l IH]; intros [|k] [|k']; simpl;
    try reflexivity; try apply IH; destruct (Nat.eqb _ _); reflexivity.
Qed.

Lemma py_index_lt len i k : py_index len i = Some k -> (k < len)%nat.
Proof.
  unfold py_index.
  destruct ((0 <=? i) && (i <? Z.of_nat len))%Z eqn:H1.
  - apply andb_true_iff in H1. destruct H1 as [H1 H2].
    apply Z.leb_le in H1. apply Z.ltb_lt in H2. intros Hk. injection Hk as <-. lia.
  - destruct ((- Z.of_nat len <=? i) && (i <? 0))%Z eqn:H2; [|discriminate].
    apply andb_true_iff in H2. destruct H2 as [H2 H3].
    apply Z.leb_le in H2. apply Z.ltb_lt in H3. intros Hk. injection Hk as <-. lia.
Qed.

Lemma Forall_nth_error_iff {A} (P : A -> Prop) (l : list A) :
  Forall P l <-> (forall k x, nth_error l k = Some x -> P x).
Proof.
  rewrite Forall_forall. split.
  - intros H k x Hk. apply H. eapply nth_error_In. exact Hk.
  - intros H x Hx. apply In_nth_error in Hx. destruct Hx as [k Hk]. exact (H k x Hk).
Qed.

(** The two ways [add_to_queue] can go. *)
Lemma add_to_queue_cases s i :
  add_to_queue s i = s \/
  exists k t,
    (i < Z.of_nat (List.length (ctracks s)))%Z /\
    py_index (List.length (ctracks s)) i = Some k /\
    nth_error (ctracks s) k = Some t /\
    cached_file t = "" /\ is_downloading t = false /\ cache_error t = "" /\
    add_to_queue s i =
      mkCacheState
        (update_nth k (fun t => set_cache_fields t (cached_file t) true (cache_error t))
           (ctracks s))
        (download_queue s ++ [i]).
Proof.
  unfold add_to_queue, track_at, update_track.
  destruct (i <? Z.of_nat (List.length (ctracks s)))%Z eqn:Hlt; [|left; reflexivity].
  destruct (py_index (List.length (ctracks s)) i) as [k|] eqn:Hp; [|left; reflexivity].
  destruct (nth_error (ctracks s) k) as [t|] eqn:Ht; [|left; reflexivity].
  destruct (String.eqb (cached_file t) "") eqn:H1;
    destruct (is_downloading t) eqn:H2;
    destruct (String.eqb (cache_error t) "") eqn:H3;
    simpl; try (left; reflexivity).
  right. exists k, t.
  apply Z.ltb_lt in Hlt. apply String.eqb_eq in H1. apply String.eqb_eq in H3.
  repeat split; assumption.
Qed.


Import Gui Threads.

(** C10 (code defect): [_handle_error] clears [is_downloading] before it
    sets [cache_error], and neither write takes the mutex.  When the user
    moves back to a track in between, [load_current_track] finds it with
    no cached file, not downloading and no cache error, and [add_to_queue]
    queues it again: the track then carries its [cache_error] while queued
    and marked downloading, and the worker runs [_download_with_retry] on
    it a second time.  With the user's presses after [_handle_error], the
    track is not queued again. *)
Theorem failed_track_requeued_by_race :
  option_map (fun s => (track_at (sys_cache s) 0, download_queue (sys_cache s)))
    (sys_run "/cache" "tidal" race_window race_start)
  = Some (Some (set_cache_fields csong "" true "Connection reset by peer"), [1; 0]%Z) /\
  option_map (fun s => map (fun r => (fst r, attempt_numbers (snd r))) (sys_runs s))
    (sys_run "/cache" "tidal" (race_window ++ race_rest)%list race_start)
  = Some [(0%Z, [1; 2; 3]%nat); (1%Z, [1; 2; 3]%nat); (0%Z, [1; 2; 3]%nat)] /\
  option_map (fun s => (download_queue (sys_cache s), map fst (sys_runs s)))
    (sys_run "/cache" "tidal" (race_serial ++ race_rest)%list race_start)
  = Some ([], [0; 1]%Z).
Proof. repeat split; vm_compute; reflexivity. Qed.

End Proofs.

(* ------------------------------------------------------------------ *)
(** ** Further properties of the code *)

Module Extras.

Import Bulk Player Trace Samples Fetch Extract Gui Run Aux Proofs.

(** *** Strings *)

Lemma str_app_assoc (a b c : string) : (a ++ b) ++ c = a ++ (b ++ c).
Proof. induction a as [|x a IH]; simpl; [reflexivity|rewrite IH; reflexivity]. Qed.

Lemma str_app_nil_r (a : string) : a ++ "" = a.
Proof. induction a as [|x a IH]; simpl; [reflexivity|rewrite IH; reflexivity]. Qed.

Lemma list_ascii_app (a b : string) :
  list_ascii_of_string (a ++ b) = (list_ascii_of_string a ++ list_ascii_of_string b)%list.
Proof. induction a as [|x a IH]; simpl; [reflexivity|rewrite IH; reflexivity]. Qed.

Lemma sanitize_app (a b : string) : sanitize (a ++ b) = sanitize a ++ sanitize b.
Proof. induction a as [|x a IH]; simpl; [reflexivity|rewrite IH; reflexivity]. Qed.

Lemma sanitize_idem (s : string) : sanitize (sanitize s) = sanitize s.
Proof.
  induction s as [|c s IH]; simpl; [reflexivity|].
  rewrite IH. destruct (unsafe_char c) eqn:Hc; simpl.
  - reflexivity.
  - rewrite Hc. reflexivity.
Qed.

Lemma sanitize_safe (s : string) : safe_name (sanitize s) = true.
Proof.
  unfold safe_name. induction s as [|c s IH]; simpl; [reflexivity|].
  rewrite IH, andb_true_r. destruct (unsafe_char c) eqn:Hc; [reflexivity|].
  rewrite Hc. reflexivity.
Qed.

Lemma sanitize_not_slash (s : string) : startswith (sanitize s) "/" = false.
Proof.
  destruct s as [|c s]; [reflexivity|]. simpl.
  destruct (unsafe_char c) eqn:Hc; [reflexivity|].
  change (Ascii.eqb "/" c && startswith (sanitize s) "" = false).
  destruct (Ascii.eqb_spec "/" c) as [He|He]; [|reflexivity].
  subst c. discriminate Hc.
Qed.

Lemma sanitize_flac (p : string) : sanitize (p ++ ".flac") = sanitize p ++ ".flac".
Proof. rewrite sanitize_app. reflexivity. Qed.

Lemma formatted_flac cfg t it :
  exists stem, get_formatted_filename cfg t it = stem ++ ".flac".
Proof.
  unfold get_formatted_filename.
  set (fn0 := if String.eqb (filename_format cfg) "artist_title" then
                artists t ++ " - " ++ title t ++ ".flac"
              else if String.eqb (filename_format cfg) "title_only" then
                title t ++ ".flac"
              else title t ++ " - " ++ artists t ++ ".flac").
  assert (H0 : exists p, fn0 = p ++ ".flac").
  { subst fn0. destruct (String.eqb _ "artist_title");
      [|destruct (String.eqb _ "title_only")].
    - exists (artists t ++ " - " ++ title t). rewrite !str_app_assoc. reflexivity.
    - exists (title t). reflexivity.
    - exists (title t ++ " - " ++ artists t). rewrite !str_app_assoc. reflexivity. }
  destruct H0 as [p Hp]. rewrite Hp.
  destruct (_ && use_track_numbers cfg).
  - exists (sanitize (Z_str02 (track_number t) ++ " - " ++ p)).
    rewrite <- sanitize_flac, !str_app_assoc. reflexivity.
  - exists (sanitize p). apply sanitize_flac.
Qed.

(** X1: the file name of [_get_formatted_filename] holds none of the
    characters less-than, greater-than, colon, double quote, slash,
    backslash, bar, question mark and star, and always ends in [.flac]. *)
Theorem formatted_filename_safe cfg t it :
  safe_name (get_formatted_filename cfg t it) = true /\
  exists stem, get_formatted_filename cfg t it = stem ++ ".flac".
Proof.
  split; [apply sanitize_safe|apply formatted_flac].
Qed.

(** X2: a track's destination is the item's output path followed by the
    file name as one more path component: [os.path.join] never drops the
    output path, and inserts a separator unless the output path is empty
    or already ends in a slash. *)
Theorem track_filepath_in_output_path cfg t it :
  track_filepath cfg t it =
  output_path it ++
    (if String.eqb (output_path it) "" || startswith (rev_str (output_path it)) "/"
     then "" else "/") ++
    get_formatted_filename cfg t it.
Proof.
  unfold track_filepath, path_join.
  unfold get_formatted_filename at 1. rewrite sanitize_not_slash.
  destruct (String.eqb (output_path it) "") eqn:He.
  - apply String.eqb_eq in He. rewrite He. reflexivity.
  - simpl. destruct (startswith (rev_str (output_path it)) "/"); reflexivity.
Qed.

(** X3: [DownloadWorker] names a track's file exactly as the bulk manager
    does under the same settings (file-name format, track numbering, album
    subfolders, and an album or playlist source); only the directory
    differs: [DownloadWorker] joins the name to its [track_outpath]. *)
Theorem download_worker_same_name w cfg ct t it :
  dw_filename_format w = filename_format cfg ->
  dw_use_track_numbers w = use_track_numbers cfg ->
  dw_use_album_subfolders w = use_album_subfolders cfg ->
  is_album w = String.eqb (item_type it) "album" ->
  is_playlist w = String.eqb (item_type it) "playlist" ->
  c_title ct = title t -> c_artists ct = artists t ->
  c_track_number ct = track_number t ->
  dw_new_filepath w ct = path_join (dw_track_outpath w ct) (get_formatted_filename cfg t it).
Proof.
  intros Hf Hn Hs Ha Hp Ht Hr Hk.
  unfold dw_new_filepath, get_formatted_filename, dw_formatted_filename.
  rewrite Hf, Hn, Hs, Ha, Hp, Ht, Hr, Hk.
  destruct (_ && use_track_numbers cfg).
  - rewrite !sanitize_app, sanitize_idem. reflexivity.
  - rewrite sanitize_idem. reflexivity.
Qed.

(** *** The bulk per-track loop *)

Local Ltac one_attempt :=
  exists 1%nat; cbn [fst snd attempt_numbers adapter_calls sleeps seq List.length];
  repeat split; try lia; intros Hb; first [discriminate Hb | now left | now right].

Lemma attempt_loop_shape cfg env t it max :
  forall n a d, (1 <= n)%nat -> (max < Z.of_nat (a + n))%Z ->
  exists k, (1 <= k <= n)%nat /\
    attempt_numbers (snd (attempt_loop cfg env t it max n a d)) = seq a k /\
    (adapter_calls (snd (attempt_loop cfg env t it max n a d)) <= k)%nat /\
    List.length (sleeps (snd (attempt_loop cfg env t it max n a d))) = Nat.pred k /\
    (fst (fst (attempt_loop cfg env t it max n a d)) = true ->
     snd (fst (attempt_loop cfg env t it max n a d)) = "File already exists" \/
     snd (fst (attempt_loop cfg env t it max n a d)) = "Download completed").
Proof.
  induction n as [|n IH]; intros a d Hn Hmax; [lia|].
  simpl attempt_loop.
  destruct (te_stopped env a); [one_attempt|].
  destruct (exists_nonempty _ _); [one_attempt|].
  destruct (isrc_service_name _); [|one_attempt].
  destruct (String.eqb (isrc t) ""); [one_attempt|].
  destruct (te_branch env a) as [| |[code msg|msg]]; try one_attempt.
  - destruct ((code =? 404)%Z && (Z.of_nat a <? max)%Z) eqn:Hc; [|one_attempt].
    destruct n as [|n].
    { apply andb_prop in Hc. destruct Hc as [_ Hc]. apply Z.ltb_lt in Hc. lia. }
    destruct (IH (S a) (retry_backoff d)) as (k & Hk & H1 & H2 & H3 & H4); [lia|lia|].
    exists (S k). unfold prepend. cbn [fst snd].
    rewrite attempt_numbers_app, adapter_calls_app, sleeps_app, length_app, H1, H3.
    cbn [attempt_numbers adapter_calls sleeps app seq List.length].
    repeat split; try lia. exact H4.
  - destruct ((Z.of_nat a <? max)%Z && contains (lower msg) "404") eqn:Hc; [|one_attempt].
    destruct n as [|n].
    { apply andb_prop in Hc. destruct Hc as [Hc _]. apply Z.ltb_lt in Hc. lia. }
    destruct (IH (S a) (retry_backoff d)) as (k & Hk & H1 & H2 & H3 & H4); [lia|lia|].
    exists (S k). unfold prepend. cbn [fst snd].
    rewrite attempt_numbers_app, adapter_calls_app, sleeps_app, length_app, H1, H3.
    cbn [attempt_numbers adapter_calls sleeps app seq List.length].
    repeat split; try lia. exact H4.
Qed.

(** X4: with retries enabled and [retry_404_max_attempts] at most 0, the
    per-track function makes no attempt at all: it never reads the stop
    flag, never looks at the file system, never calls the adapter, and
    reports the track as failed with [Failed after N attempts]. *)
Theorem no_attempt_when_max_not_positive cfg env t it :
  retry_404_enabled cfg = true -> (retry_404_max_attempts cfg <= 0)%Z ->
  download_single_track_with_retry cfg env t it =
  ((false, "Failed after " ++ Z_str (retry_404_max_attempts cfg) ++ " attempts"), []).
Proof.
  intros He Hm. unfold download_single_track_with_retry. rewrite He.
  replace (Z.to_nat (retry_404_max_attempts cfg)) with 0%nat by lia.
  reflexivity.
Qed.

Lemma no_attempt_when_max_not_positive_witness :
  download_single_track_with_retry zero_attempts_config (env_const BrDone) song album_item =
  ((false, "Failed after 0 attempts"), []).
Proof.
  exact (no_attempt_when_max_not_positive zero_attempts_config (env_const BrDone) song
           album_item eq_refl ltac:(vm_compute; discriminate)).
Defined.

(** X5: with at least one attempt configured, the per-track function makes
    k attempts numbered 1, ..., k, where k is between 1 and the configured
    number (1 when retries are disabled); it calls the adapter at most once
    per attempt, sleeps exactly once between two attempts and never after
    the last, and a success is always reported as [File already exists] or
    [Download completed]. *)
Theorem per_track_attempt_shape cfg env t it :
  (retry_404_enabled cfg = true -> (1 <= retry_404_max_attempts cfg)%Z) ->
  exists k,
    (1 <= k <= Z.to_nat (if retry_404_enabled cfg then retry_404_max_attempts cfg else 1%Z))%nat /\
    attempt_numbers (snd (download_single_track_with_retry cfg env t it)) = seq 1 k /\
    (adapter_calls (snd (download_single_track_with_retry cfg env t it)) <= k)%nat /\
    List.length (sleeps (snd (download_single_track_with_retry cfg env t it))) = Nat.pred k /\
    (fst (fst (download_single_track_with_retry cfg env t it)) = true ->
     snd (fst (download_single_track_with_retry cfg env t it)) = "File already exists" \/
     snd (fst (download_single_track_with_retry cfg env t it)) = "Download completed").
Proof.
  intros Hm. unfold download_single_track_with_retry.
  apply attempt_loop_shape.
  - destruct (retry_404_enabled cfg); [specialize (Hm eq_refl); lia|reflexivity].
  - destruct (retry_404_enabled cfg); [specialize (Hm eq_refl); lia|reflexivity].
Qed.

Lemma per_track_attempt_shape_witness :
  exists k, (1 <= k <= 10)%nat /\
    attempt_numbers (snd (download_single_track_with_retry default_config
      (env_const (BrRaise (HTTPError 404 "Not Found"))) song album_item)) = seq 1 k.
Proof.
  destruct (per_track_attempt_shape default_config
              (env_const (BrRaise (HTTPError 404 "Not Found"))) song album_item
              (fun _ => ltac:(vm_compute; discriminate))) as (k & Hk & H1 & _).
  exists k. split; [exact Hk|exact H1].
Defined.

(** *** The metadata loop *)

Lemma fetch_loop_shape cfg env :
  forall n a d le, (1 <= n)%nat -> (MAX_METADATA_RETRIES < a + n)%nat ->
  exists k j, (1 <= k <= n)%nat /\
    attempt_numbers (snd (fetch_loop cfg env n a d le)) = seq a k /\
    sleeps (snd (fetch_loop cfg env n a d le)) = backoff_list d j /\ (j < k)%nat.
Proof.
  induction n as [|n IH]; intros a d le Hn Hm; [lia|]. simpl fetch_loop.
  destruct (fe_stopped env a); [exists 1%nat, 0%nat; simpl; repeat split; lia|].
  destruct (fe_answer env a) as [ty ti ts|e]; [exists 1%nat, 0%nat; simpl; repeat split; lia|].
  destruct (meta_breaks cfg e); [exists 1%nat, 0%nat; simpl; repeat split; lia|].
  destruct n as [|n].
  { replace (Nat.ltb a MAX_METADATA_RETRIES) with false
      by (symmetry; apply Nat.ltb_ge; lia).
    exists 1%nat, 0%nat; simpl; repeat split; lia. }
  destruct (Nat.ltb a MAX_METADATA_RETRIES); [destruct (fe_stopped_sleep env a)|].
  - destruct (IH (S a) d (meta_error_text e)) as (k & j & Hk & H1 & H2 & Hj); [lia|lia|].
    exists (S k), j. unfold prepend_f. cbn [fst snd app attempt_numbers sleeps].
    rewrite H1, H2. repeat split; lia.
  - destruct (IH (S a) (retry_backoff d) (meta_error_text e)) as (k & j & Hk & H1 & H2 & Hj);
      [lia|lia|].
    exists (S k), (S j). unfold prepend_f. cbn [fst snd app attempt_numbers sleeps].
    unfold BACKOFF_MULTIPLIER, MAX_RETRY_DELAY.
    change (pymin (d * (3 # 2)) 30) with (retry_backoff d). rewrite H1, H2.
    repeat split; lia.
  - destruct (IH (S a) d (meta_error_text e)) as (k & j & Hk & H1 & H2 & Hj); [lia|lia|].
    exists (S k), j. unfold prepend_f. cbn [fst snd app attempt_numbers sleeps].
    rewrite H1, H2. repeat split; lia.
Qed.

(** X6: [_fetch_metadata_for_item] makes k attempts numbered 1, ..., k
    with k at most [MAX_METADATA_RETRIES] = 5; its sleeps, fewer than its
    attempts, are the first ones of 2, min(2 * 1.5, 30), ... *)
Theorem metadata_attempt_shape cfg env :
  exists k j, (1 <= k <= MAX_METADATA_RETRIES)%nat /\
    attempt_numbers (snd (fetch_metadata_for_item cfg env)) = seq 1 k /\
    sleeps (snd (fetch_metadata_for_item cfg env)) = backoff_list INITIAL_RETRY_DELAY j /\
    (j < k)%nat.
Proof. apply fetch_loop_shape; unfold MAX_METADATA_RETRIES; lia. Qed.

Lemma fetch_loop_retry_prefix cfg env :
  forall m n a d le, (a + m <= MAX_METADATA_RETRIES)%nat ->
  (forall b, (a <= b < a + m)%nat -> meta_retryable cfg env b) ->
  exists d' le',
    fst (fetch_loop cfg env (m + n) a d le) = fst (fetch_loop cfg env n (a + m) d' le') /\
    attempt_numbers (snd (fetch_loop cfg env (m + n) a d le)) =
      (seq a m ++ attempt_numbers (snd (fetch_loop cfg env n (a + m) d' le')))%list /\
    sleeps (snd (fetch_loop cfg env (m + n) a d le)) =
      (backoff_list d m ++ sleeps (snd (fetch_loop cfg env n (a + m) d' le')))%list.
Proof.
  induction m as [|m IH]; intros n a d le Hm Hb.
  - exists d, le. rewrite Nat.add_0_r. split; [|split]; reflexivity.
  - destruct (Hb a ltac:(lia)) as (Hs & Hss & e & He & Hbr).
    simpl (S m + n)%nat. simpl fetch_loop. rewrite Hs, He, Hbr, Hss.
    replace (Nat.ltb a MAX_METADATA_RETRIES) with true
      by (symmetry; apply Nat.ltb_lt; lia).
    destruct (IH n (S a) (retry_backoff d) (meta_error_text e)) as (d' & le' & H1 & H2 & H3);
      [lia|intros b Hb'; apply Hb; lia|].
    exists d', le'. replace (a + S m)%nat with (S a + m)%nat by lia.
    unfold prepend_f. cbn [fst snd app attempt_numbers sleeps].
    unfold BACKOFF_MULTIPLIER, MAX_RETRY_DELAY.
    change (pymin (d * (3 # 2)) 30) with (retry_backoff d).
    rewrite H1, H2, H3. split; [|split]; reflexivity.
Qed.

(** X7: when attempts 1 to a-1 raise errors the loop retries and attempt a
    (at most 5) raises an error that either ends the loop (an HTTP error
    other than a retried 404, or an invalid URL) or comes at the last
    attempt, the item fails with that attempt's error text, after attempts
    1, ..., a and the sleeps 2, min(2 * 1.5, 30), ... between them. *)
Theorem metadata_failure_is_last_error cfg env a e :
  (1 <= a <= MAX_METADATA_RETRIES)%nat ->
  (forall b, (1 <= b < a)%nat -> meta_retryable cfg env b) ->
  fe_stopped env a = false -> fe_answer env a = MetaRaise e ->
  meta_breaks cfg e = true \/ a = MAX_METADATA_RETRIES ->
  fst (fetch_metadata_for_item cfg env) = FFailed (meta_error_text e) /\
  fetch_status "pending" "" (fst (fetch_metadata_for_item cfg env))
    = ("failed", meta_error_text e) /\
  attempt_numbers (snd (fetch_metadata_for_item cfg env)) = seq 1 a /\
  sleeps (snd (fetch_metadata_for_item cfg env)) = backoff_list INITIAL_RETRY_DELAY (a - 1).
Proof.
  intros Ha Hpre Hs He Hlast. unfold fetch_metadata_for_item.
  assert (Heq : MAX_METADATA_RETRIES = ((a - 1) + S (MAX_METADATA_RETRIES - a))%nat)
    by (unfold MAX_METADATA_RETRIES in *; lia).
  rewrite Heq.
  destruct (fetch_loop_retry_prefix cfg env (a - 1) (S (MAX_METADATA_RETRIES - a)) 1
              INITIAL_RETRY_DELAY "") as (d' & le' & H1 & H2 & H3);
    [unfold MAX_METADATA_RETRIES in *; lia|intros b Hb; apply Hpre; lia|].
  replace (1 + (a - 1))%nat with a in H1, H2, H3 by lia.
  assert (Hr : fetch_loop cfg env (S (MAX_METADATA_RETRIES - a)) a d' le'
               = (FFailed (meta_error_text e), [EvAttempt a])).
  { simpl fetch_loop. rewrite Hs, He.
    destruct (meta_breaks cfg e) eqn:Hb; [reflexivity|].
    destruct Hlast as [Hl|Hl]; [discriminate Hl|]. subst a.
    reflexivity. }
  rewrite Hr in H1, H2, H3. rewrite H1, H2, H3. cbn.
  rewrite app_nil_r. replace (seq 1 (a - 1) ++ [a])%list with (seq 1 a).
  - repeat split; reflexivity.
  - replace a with (S (a - 1)) at 1 by lia. rewrite seq_S.
    replace (1 + (a - 1))%nat with a by lia. reflexivity.
Qed.

(** X8: a stop request read at the top of attempt a (at most 5), after
    attempts 1 to a-1 raised errors the loop retries, ends the loop
    without recording an error: the item keeps its status and its empty
    error message, although a-1 attempts have failed. *)
Theorem metadata_stop_leaves_item_pending cfg env a :
  (1 <= a <= MAX_METADATA_RETRIES)%nat ->
  (forall b, (1 <= b < a)%nat -> meta_retryable cfg env b) ->
  fe_stopped env a = true ->
  fst (fetch_metadata_for_item cfg env) = FStopped /\
  fetch_status "pending" "" (fst (fetch_metadata_for_item cfg env)) = ("pending", "") /\
  attempt_numbers (snd (fetch_metadata_for_item cfg env)) = seq 1 a.
Proof.
  intros Ha Hpre Hs. unfold fetch_metadata_for_item.
  assert (Heq : MAX_METADATA_RETRIES = ((a - 1) + S (MAX_METADATA_RETRIES - a))%nat)
    by (unfold MAX_METADATA_RETRIES in *; lia).
  rewrite Heq.
  destruct (fetch_loop_retry_prefix cfg env (a - 1) (S (MAX_METADATA_RETRIES - a)) 1
              INITIAL_RETRY_DELAY "") as (d' & le' & H1 & H2 & H3);
    [unfold MAX_METADATA_RETRIES in *; lia|intros b Hb; apply Hpre; lia|].
  replace (1 + (a - 1))%nat with a in H1, H2, H3 by lia.
  assert (Hr : fetch_loop cfg env (S (MAX_METADATA_RETRIES - a)) a d' le'
               = (FStopped, [EvAttempt a])).
  { simpl fetch_loop. rewrite Hs. reflexivity. }
  rewrite Hr in H1, H2. rewrite H1, H2. cbn.
  replace (seq 1 (a - 1) ++ [a])%list with (seq 1 a).
  - repeat split; reflexivity.
  - replace a with (S (a - 1)) at 1 by lia. rewrite seq_S.
    replace (1 + (a - 1))%nat with a by lia. reflexivity.
Qed.

Lemma metadata_failure_is_last_error_witness :
  fst (fetch_metadata_for_item default_config fetch_env_404)
    = FFailed "HTTP Error 404: Not Found" /\
  sleeps (snd (fetch_metadata_for_item default_config fetch_env_404))
    = backoff_list INITIAL_RETRY_DELAY 4.
Proof.
  destruct (metadata_failure_is_last_error default_config fetch_env_404 5
              (MetaHTTP 404 "Not Found")) as (H1 & _ & _ & H4).
  - unfold MAX_METADATA_RETRIES; lia.
  - intros b _. unfold meta_retryable. split; [reflexivity|]. split; [reflexivity|].
    eexists; split; reflexivity.
  - reflexivity.
  - reflexivity.
  - right; reflexivity.
  - split; [exact H1|exact H4].
Defined.

Lemma metadata_stop_leaves_item_pending_witness :
  fetch_status "pending" "" (fst (fetch_metadata_for_item default_config fetch_env_stop3))
    = ("pending", "") /\
  attempt_numbers (snd (fetch_metadata_for_item default_config fetch_env_stop3)) = [1; 2; 3]%nat.
Proof.
  destruct (metadata_stop_leaves_item_pending default_config fetch_env_stop3 3)
    as (_ & H2 & H3).
  - unfold MAX_METADATA_RETRIES; lia.
  - intros b Hb. unfold meta_retryable. simpl.
    replace (Nat.eqb b 3) with false by (symmetry; apply Nat.eqb_neq; lia).
    split; [reflexivity|]. split; [reflexivity|].
    eexists; split; reflexivity.
  - reflexivity.
  - split; [exact H2|exact H3].
Defined.

(** *** Items and the tracker *)



Lemma item_completed_failed_disjoint it : item_completed it && item_failed it = false.
Proof.
  unfold item_completed, item_failed.
  destruct (String.eqb_spec (status it) "failed") as [->|_]; [reflexivity|].
  apply andb_false_r.
Qed.

Lemma filter_split3 {A} (f g : A -> bool) (l : list A) :
  (forall x, f x && g x = false) ->
  (List.length (filter f l) + List.length (filter g l) +
   List.length (filter (fun x => negb (f x || g x)) l))%nat = List.length l.
Proof.
  intros Hd. induction l as [|x l IH]; [reflexivity|]. simpl.
  specialize (Hd x). destruct (f x), (g x); simpl in *; try discriminate; lia.
Qed.

Lemma fold_sum_le (l : list BulkItem) :
  Forall (fun it => (downloaded_count it + List.length (failed_tracks it) <= tracks_count it)%nat) l ->
  (fold_right (fun it s => (downloaded_count it + s)%nat) 0%nat l +
   fold_right (fun it s => (List.length (failed_tracks it) + s)%nat) 0%nat l <=
   fold_right (fun it s => (tracks_count it + s)%nat) 0%nat l)%nat.
Proof. induction 1; simpl; lia. Qed.

(** X10: in the summary of [_handle_completion], every item is counted
    at most once: the successful URLs, the failed URLs and the items in
    neither state (left [pending] by a stop) add up to the total; and when
    no item has more downloaded and failed tracks than tracks, the
    downloaded and failed tracks together are at most the items' tracks. *)
Theorem completion_counts items tr :
  (cd_successful_urls (handle_completion items tr) + cd_failed_urls (handle_completion items tr)
   + List.length (filter (fun it => negb (item_completed it || item_failed it)) items))%nat
  = cd_total_urls (handle_completion items tr) /\
  (Forall (fun it => (downloaded_count it + List.length (failed_tracks it) <= tracks_count it)%nat)
     items ->
   (cd_downloaded_tracks (handle_completion items tr) + cd_failed_tracks (handle_completion items tr)
    <= fold_right (fun it s => (tracks_count it + s)%nat) 0%nat items)%nat).
Proof.
  split.
  - apply filter_split3, item_completed_failed_disjoint.
  - apply fold_sum_le.
Qed.

Lemma completion_counts_witness :
  (cd_downloaded_tracks (handle_completion [album_item] new_tracker) +
   cd_failed_tracks (handle_completion [album_item] new_tracker) <= 1)%nat.
Proof.
  exact (proj2 (completion_counts [album_item] new_tracker)
           ltac:(repeat constructor; vm_compute; lia)).
Defined.

(** X11: the successful and failed URL counts of [_emit_progress_update]
    together never exceed the number of URLs it reports as processed
    ([current_url_index + 1]), nor the number of items. *)
Theorem progress_url_counts_bounded tr items :
  (pd_successful_urls (emit_progress_update tr items) + pd_failed_urls (emit_progress_update tr items)
   <= Nat.min (Z.to_nat (pd_processed_urls (emit_progress_update tr items))) (List.length items))%nat.
Proof.
  unfold emit_progress_update. cbn [pd_successful_urls pd_failed_urls pd_processed_urls].
  pose proof (filter_split3 item_completed item_failed
                (firstn (Z.to_nat (current_url_index tr + 1)) items)
                item_completed_failed_disjoint) as H.
  rewrite length_firstn in H. unfold item_completed, item_failed in H. lia.
Qed.

Lemma apply_ops_track_fields tr ops :
  (downloaded_tracks (apply_ops tr ops) + tr_failed_tracks (apply_ops tr ops)
   = downloaded_tracks tr + tr_failed_tracks tr + Z.of_nat (cnt_inc ops))%Z /\
  (downloaded_tracks tr <= downloaded_tracks (apply_ops tr ops))%Z /\
  (tr_failed_tracks tr <= tr_failed_tracks (apply_ops tr ops))%Z /\
  total_tracks (apply_ops tr ops) = (total_tracks tr + add_total ops)%Z.
Proof.
  unfold apply_ops. revert tr.
  induction ops as [|op ops IH]; intros tr; simpl; [lia|].
  destruct (IH (apply_op tr op)) as (H1 & H2 & H3 & H4).
  rewrite H1, H4. destruct op; simpl in *; lia.
Qed.

(** Every prefix of the writes adds at least as many tracks to the total
    as it counts as downloaded or failed. *)
Lemma firstn_cnt_app (A B : list TrackerOp) :
  (forall k, (Z.of_nat (cnt_inc (firstn k A)) <= add_total (firstn k A))%Z) ->
  (forall k, (Z.of_nat (cnt_inc (firstn k B)) <= add_total (firstn k B))%Z) ->
  forall k, (Z.of_nat (cnt_inc (firstn k (A ++ B))) <= add_total (firstn k (A ++ B)))%Z.
Proof.
  intros HA HB k. rewrite firstn_app.
  assert (Hc : forall X Y, cnt_inc (X ++ Y) = (cnt_inc X + cnt_inc Y)%nat).
  { induction X as [|[] X IH]; intros Y; simpl; rewrite ?IH; reflexivity. }
  assert (Ha : forall X Y, add_total (X ++ Y) = (add_total X + add_total Y)%Z).
  { induction X as [|[] X IH]; intros Y; simpl; rewrite ?IH; lia. }
  rewrite Hc, Ha. specialize (HA k). specialize (HB (k - List.length A)%nat). lia.
Qed.

Lemma track_loop_ops_incs cfg envs stop :
  forall ts i it k,
  (cnt_inc (firstn k (Run.track_loop_ops cfg envs stop i ts it)) <= List.length ts)%nat /\
  add_total (firstn k (Run.track_loop_ops cfg envs stop i ts it)) = 0%Z.
Proof.
  induction ts as [|t ts IH]; intros i it k; simpl.
  - rewrite firstn_nil. simpl. lia.
  - destruct (stop i); [rewrite firstn_nil; simpl; lia|].
    destruct k as [|k]; [simpl; lia|]. simpl firstn.
    destruct (IH (S i) (record_result it t
                 (fst (download_single_track_with_retry cfg (envs i) t it))) k) as [H1 H2].
    destruct (fst (fst (download_single_track_with_retry cfg (envs i) t it)));
      simpl; lia.
Qed.

Lemma item_ops_ok cfg item_envs item_stop has_dl fetch i it :
  forall k, (Z.of_nat (cnt_inc (firstn k (Run.item_ops cfg item_envs item_stop has_dl fetch i it)))
             <= add_total (firstn k (Run.item_ops cfg item_envs item_stop has_dl fetch i it)))%Z.
Proof.
  intros k. unfold Run.item_ops.
  destruct k as [|k]; [simpl; lia|]. simpl firstn. cbn [cnt_inc add_total].
  destruct (fetch i) as [ty ti ts| |le]; [|rewrite firstn_nil; simpl; lia..].
  destruct k as [|k]; [simpl; lia|]. simpl firstn. cbn [cnt_inc add_total].
  destruct has_dl; cbv beta iota zeta.
  - match goal with
    | |- context [Run.track_loop_ops _ _ _ 0 ?l ?x] =>
        destruct (track_loop_ops_incs cfg (item_envs i) (item_stop i) l 0 x k) as [H1 H2]
    end.
    rewrite H2. lia.
  - rewrite firstn_nil. simpl. lia.
Qed.

Lemma run_ops_ok cfg item_envs item_stop has_dl fetch run_stop :
  forall items i k,
  (Z.of_nat (cnt_inc (firstn k (Run.run_ops cfg item_envs item_stop has_dl fetch run_stop i items)))
   <= add_total (firstn k (Run.run_ops cfg item_envs item_stop has_dl fetch run_stop i items)))%Z.
Proof.
  induction items as [|it items IH]; intros i k; cbn [Run.run_ops].
  - rewrite firstn_nil. simpl. lia.
  - destruct (run_stop i); [rewrite firstn_nil; simpl; lia|].
    apply firstn_cnt_app; [apply item_ops_ok|apply IH].
Qed.

Lemma track_percentage_bounds (d t : Z) :
  (0 <= d <= t)%Z -> 0 <= (if (t =? 0)%Z then 0 else inject_Z d / inject_Z t * 100) <= 100.
Proof.
  intros [H0 Ht]. destruct (Z.eqb_spec t 0) as [_|Hne]; [split; discriminate|].
  assert (Htp : 0 < inject_Z t) by (change 0 with (inject_Z 0); rewrite <- Zlt_Qlt; lia).
  assert (Hq0 : 0 <= inject_Z d / inject_Z t).
  { apply Qle_shift_div_l; [exact Htp|]. rewrite Qmult_0_l. change 0 with (inject_Z 0). rewrite <- Zle_Qle. exact H0. }
  assert (Hq1 : inject_Z d / inject_Z t <= 1).
  { apply Qle_shift_div_r; [exact Htp|]. rewrite Qmult_1_l, <- Zle_Qle. exact Ht. }
  split; lra.
Qed.

(** X12: along [run], at every write to the tracker (so at every
    [_emit_progress_update]), the downloaded and failed track counts are
    non-negative and together at most [total_tracks]: the track progress
    percentage stays between 0 and 100. *)
Theorem track_progress_within_bounds cfg item_envs item_stop has_dl fetch run_stop items k :
  (0 <= downloaded_tracks (apply_ops new_tracker (firstn k
          (Run.run_tracker_ops cfg item_envs item_stop has_dl fetch run_stop items))))%Z /\
  (0 <= tr_failed_tracks (apply_ops new_tracker (firstn k
          (Run.run_tracker_ops cfg item_envs item_stop has_dl fetch run_stop items))))%Z /\
  (downloaded_tracks (apply_ops new_tracker (firstn k
          (Run.run_tracker_ops cfg item_envs item_stop has_dl fetch run_stop items))) +
   tr_failed_tracks (apply_ops new_tracker (firstn k
          (Run.run_tracker_ops cfg item_envs item_stop has_dl fetch run_stop items)))
   <= total_tracks (apply_ops new_tracker (firstn k
          (Run.run_tracker_ops cfg item_envs item_stop has_dl fetch run_stop items))))%Z /\
  0 <= get_track_progress_percentage (apply_ops new_tracker (firstn k
          (Run.run_tracker_ops cfg item_envs item_stop has_dl fetch run_stop items))) <= 100.
Proof.
  set (ops := firstn k (Run.run_tracker_ops cfg item_envs item_stop has_dl fetch run_stop items)).
  assert (Hok : (Z.of_nat (cnt_inc ops) <= add_total ops)%Z).
  { subst ops. unfold Run.run_tracker_ops. destruct k as [|k]; [simpl; lia|].
    simpl firstn. cbn [cnt_inc add_total]. apply run_ops_ok. }
  destruct (apply_ops_track_fields new_tracker ops) as (H1 & H2 & H3 & H4).
  simpl in H1, H2, H3, H4.
  assert (Hb : (downloaded_tracks (apply_ops new_tracker ops) +
                tr_failed_tracks (apply_ops new_tracker ops) <=
                total_tracks (apply_ops new_tracker ops))%Z) by lia.
  split; [lia|]. split; [lia|]. split; [exact Hb|].
  unfold get_track_progress_percentage. apply track_percentage_bounds. lia.
Qed.

Lemma download_worker_same_name_witness :
  dw_new_filepath dw_album csong =
  path_join (dw_track_outpath dw_album csong) (get_formatted_filename default_config song album_item).
Proof.
  exact (download_worker_same_name dw_album default_config csong song album_item
           eq_refl eq_refl eq_refl eq_refl eq_refl eq_refl eq_refl eq_refl).
Defined.

(** *** Track ids and the metadata extraction *)

Lemma split_acc_nosep s cur :
  no_slash s = true -> split_acc "/" s cur = [(cur ++ s)%string].
Proof.
  unfold no_slash. revert cur. induction s as [|c s IH]; intros cur H; simpl in *.
  - rewrite str_app_nil_r. reflexivity.
  - apply andb_prop in H. destruct H as [Hc H].
    destruct (Ascii.eqb c "/"); [discriminate Hc|].
    rewrite IH by exact H. rewrite str_app_assoc. reflexivity.
Qed.

Lemma split_acc_sep p rest cur :
  exists l, split_acc "/" (p ++ String "/" rest) cur = (l ++ split_acc "/" rest "")%list.
Proof.
  revert cur. induction p as [|c p IH]; intros cur; simpl.
  - exists [cur]. reflexivity.
  - destruct (Ascii.eqb c "/").
    + destruct (IH "") as [l Hl]. exists (cur :: l). rewrite Hl. reflexivity.
    + apply IH.
Qed.

(** X13: the track id the extraction functions take from a URL
    ([url.split("/")[-1]]) is the URL's last path segment: for any prefix
    [p] and any [x] without a slash, the id of [p/x] is [x], and the id of
    a string without a slash is the string itself. *)
Theorem url_id_last_segment p x :
  no_slash x = true -> url_id (p ++ "/" ++ x) = x /\ url_id x = x.
Proof.
  intros Hx. unfold url_id, py_split. split.
  - destruct (split_acc_sep p x "") as [l Hl]. simpl ("/" ++ x).
    rewrite Hl, split_acc_nosep by exact Hx. apply last_last.
  - rewrite split_acc_nosep by exact Hx. reflexivity.
Qed.

Lemma url_id_last_segment_witness :
  url_id ("https://open.spotify.com/track" ++ "/" ++ "4uLU6hMCjMI75M1A2tKUQC")
  = "4uLU6hMCjMI75M1A2tKUQC".
Proof.
  exact (proj1 (url_id_last_segment "https://open.spotify.com/track" "4uLU6hMCjMI75M1A2tKUQC"
                  eq_refl)).
Defined.

Lemma entry_track_some td al tn t :
  entry_track td al tn = Some t ->
  al = Some (album t) /\ tn = Some (track_number t) /\
  td_external_urls td = Some (external_urls t) /\ td_name td = Some (title t) /\
  td_artists td = Some (artists t) /\ id t = url_id (external_urls t).
Proof.
  unfold entry_track.
  destruct (td_external_urls td), (td_name td), (td_artists td), al, tn;
    try discriminate.
  intros H. injection H as <-. simpl. repeat split; reflexivity.
Qed.

Lemma entry_track_none td al tn :
  td_external_urls td = None \/ td_name td = None \/ td_artists td = None ->
  entry_track td al tn = None.
Proof.
  unfold entry_track. intros [H|[H|H]]; rewrite H;
    destruct (td_external_urls td), (td_name td); reflexivity.
Qed.

Lemma album_tracks_spec an :
  forall tl ts, album_tracks an tl = Some ts ->
  List.length ts = List.length tl /\ Forall (fun t => album t = an) ts /\
  map Some (map track_number ts) = map td_track_number tl.
Proof.
  induction tl as [|td tl IH]; intros ts H; simpl in H.
  - injection H as <-. repeat constructor.
  - destruct (entry_track td (Some an) (td_track_number td)) as [t|] eqn:He; [|discriminate].
    destruct (album_tracks an tl) as [r|]; [|discriminate].
    injection H as <-. destruct (IH r eq_refl) as (H1 & H2 & H3).
    destruct (entry_track_some _ _ _ _ He) as (Ha & Hn & _).
    simpl. rewrite H1, H3, Hn. injection Ha as ->.
    repeat constructor; assumption.
Qed.

Lemma playlist_tracks_spec :
  forall tl i ts, playlist_tracks (Z.of_nat i) tl = Some ts ->
  List.length ts = List.length tl /\
  map track_number ts = map Z.of_nat (seq i (List.length tl)) /\
  map album ts = map (fun td => get_default (td_album_name_key td) "") tl.
Proof.
  induction tl as [|td tl IH]; intros i ts H; simpl in H.
  - injection H as <-. repeat constructor.
  - destruct (entry_track td _ (Some (Z.of_nat i))) as [t|] eqn:He; [|discriminate].
    replace (Z.of_nat i + 1)%Z with (Z.of_nat (S i)) in H by lia.
    destruct (playlist_tracks (Z.of_nat (S i)) tl) as [r|] eqn:Hr; [|discriminate].
    injection H as <-. destruct (IH (S i) r Hr) as (H1 & H2 & H3).
    destruct (entry_track_some _ _ _ _ He) as (Ha & Hn & _).
    injection Ha as Ha. injection Hn as Hn.
    simpl. rewrite H1, H2, H3, <- Ha, <- Hn. repeat split; reflexivity.
Qed.

Lemma album_tracks_none an tl td :
  In td tl -> td_external_urls td = None \/ td_name td = None \/ td_artists td = None ->
  album_tracks an tl = None.
Proof.
  intros Hin Hm. induction tl as [|td' tl IH]; [destruct Hin|]. simpl.
  destruct Hin as [->|Hin].
  - rewrite entry_track_none by exact Hm. reflexivity.
  - rewrite IH by exact Hin. destruct (entry_track _ _ _); reflexivity.
Qed.

Lemma playlist_tracks_none tl td :
  In td tl -> td_external_urls td = None \/ td_name td = None \/ td_artists td = None ->
  forall i, playlist_tracks i tl = None.
Proof.
  intros Hin Hm. induction tl as [|td' tl IH]; [destruct Hin|]. intros i. simpl.
  destruct Hin as [->|Hin].
  - rewrite entry_track_none by exact Hm. reflexivity.
  - rewrite IH by exact Hin. destruct (entry_track _ _ _); reflexivity.
Qed.

(** X14: a successful album extraction gives one track per entry of the
    track list, each carrying the album's name and its entry's track
    number; a successful playlist extraction gives one track per entry,
    numbered 1, 2, ... in list order, with the entry's [album_name] (empty
    when absent).  One entry without its URL, name or artists makes either
    extraction fail as a whole. *)
Theorem extraction_shape an tl :
  (forall ts, extract_tracks_from_album_metadata (Some an) (Some tl) = Some ts ->
     List.length ts = List.length tl /\ Forall (fun t => album t = an) ts /\
     map Some (map track_number ts) = map td_track_number tl) /\
  (forall ts, extract_tracks_from_playlist_metadata (Some tl) = Some ts ->
     List.length ts = List.length tl /\
     map track_number ts = map Z.of_nat (seq 1 (List.length tl)) /\
     map album ts = map (fun td => get_default (td_album_name_key td) "") tl) /\
  (forall td, In td tl ->
     td_external_urls td = None \/ td_name td = None \/ td_artists td = None ->
     extract_tracks_from_album_metadata (Some an) (Some tl) = None /\
     extract_tracks_from_playlist_metadata (Some tl) = None).
Proof.
  split; [|split].
  - intros ts H. apply album_tracks_spec. exact H.
  - intros ts H. apply (playlist_tracks_spec tl 1). exact H.
  - intros td Hin Hm. split.
    + exact (album_tracks_none an tl td Hin Hm).
    + exact (playlist_tracks_none tl td Hin Hm 1).
Qed.

Lemma extraction_shape_witness :
  map track_number (get_default (extract_tracks_from_playlist_metadata (Some [td_two; td_one])) [])
    = [1; 2]%Z /\
  extract_tracks_from_album_metadata (Some "Alb") (Some [td_one; td_broken; td_two]) = None.
Proof.
  split.
  - exact (proj1 (proj2 (proj1 (proj2 (extraction_shape "Alb" [td_two; td_one]))
                   _ eq_refl))).
  - exact (proj1 (proj2 (proj2 (extraction_shape "Alb" [td_one; td_broken; td_two]))
                   td_broken ltac:(simpl; tauto) (or_introl eq_refl))).
Defined.

Lemma gui_append_album an :
  forall tl acc ts, album_tracks an tl = Some ts ->
  gui_append (fun _ td => entry_track td (Some an) (td_track_number td)) acc tl
  = (acc ++ map to_ctrack ts)%list.
Proof.
  induction tl as [|td tl IH]; intros acc ts H; simpl in H.
  - injection H as <-. simpl. rewrite app_nil_r. reflexivity.
  - simpl. destruct (entry_track td (Some an) (td_track_number td)) as [t|]; [|discriminate].
    destruct (album_tracks an tl) as [r|]; [|discriminate].
    injection H as <-. rewrite (IH _ r eq_refl), <- app_assoc. reflexivity.
Qed.

Lemma entry_track_none_inv td al tn :
  entry_track td (Some al) tn = None ->
  td_external_urls td = None \/ td_name td = None \/ td_artists td = None \/ tn = None.
Proof.
  unfold entry_track.
  destruct (td_external_urls td), (td_name td), (td_artists td), tn;
    intros H; try discriminate H; tauto.
Qed.

Lemma gui_append_album_none an :
  forall tl acc, album_tracks an tl = None ->
  exists k ts td, nth_error tl k = Some td /\
  (td_external_urls td = None \/ td_name td = None \/ td_artists td = None \/
   td_track_number td = None) /\
  album_tracks an (firstn k tl) = Some ts /\
  gui_append (fun _ td => entry_track td (Some an) (td_track_number td)) acc tl
  = (acc ++ map to_ctrack ts)%list.
Proof.
  induction tl as [|td tl IH]; intros acc H; simpl in H; [discriminate|].
  simpl. destruct (entry_track td (Some an) (td_track_number td)) as [t|] eqn:He.
  - destruct (album_tracks an tl) as [r|] eqn:Hr; [discriminate|].
    destruct (IH (acc ++ [to_ctrack t])%list eq_refl) as (k & ts & td' & Hk & Hm & H1 & H2).
    exists (S k), (t :: ts), td'. simpl. rewrite He, H1, H2, <- app_assoc.
    repeat split; assumption || reflexivity.
  - exists 0%nat, [], td. simpl. rewrite app_nil_r.
    repeat split; [exact (entry_track_none_inv _ _ _ He)].
Qed.

Lemma gui_append_playlist :
  forall tl acc ts, playlist_tracks (Z.of_nat (List.length acc) + 1) tl = Some ts ->
  gui_append (fun k td => entry_track td (Some (get_default (td_album_name_key td) ""))
                            (Some (Z.of_nat k + 1)%Z)) acc tl
  = (acc ++ map to_ctrack ts)%list.
Proof.
  induction tl as [|td tl IH]; intros acc ts H; simpl in H.
  - injection H as <-. simpl. rewrite app_nil_r. reflexivity.
  - simpl. destruct (entry_track td _ (Some (Z.of_nat (List.length acc) + 1)%Z)) as [t|];
      [|discriminate].
    destruct (playlist_tracks (Z.of_nat (List.length acc) + 1 + 1) tl) as [r|] eqn:Hr;
      [|discriminate].
    injection H as <-. rewrite (IH _ r), <- app_assoc; [reflexivity|].
    rewrite length_app. simpl. rewrite <- Hr. f_equal. lia.
Qed.

Lemma gui_append_playlist_none :
  forall tl acc, playlist_tracks (Z.of_nat (List.length acc) + 1) tl = None ->
  exists k ts td, nth_error tl k = Some td /\
  (td_external_urls td = None \/ td_name td = None \/ td_artists td = None) /\
  playlist_tracks (Z.of_nat (List.length acc) + 1) (firstn k tl) = Some ts /\
  gui_append (fun k td => entry_track td (Some (get_default (td_album_name_key td) ""))
                            (Some (Z.of_nat k + 1)%Z)) acc tl
  = (acc ++ map to_ctrack ts)%list.
Proof.
  induction tl as [|td tl IH]; intros acc H; simpl in H; [discriminate|].
  simpl. destruct (entry_track td _ (Some (Z.of_nat (List.length acc) + 1)%Z)) as [t|] eqn:He.
  - destruct (playlist_tracks (Z.of_nat (List.length acc) + 1 + 1) tl) as [r|] eqn:Hr;
      [discriminate|].
    assert (Hl : (Z.of_nat (List.length (acc ++ [to_ctrack t])) + 1
                  = Z.of_nat (List.length acc) + 1 + 1)%Z)
      by (rewrite length_app; simpl; lia).
    destruct (IH (acc ++ [to_ctrack t])%list) as (k & ts & td' & Hk & Hm & H1 & H2);
      [rewrite Hl; exact Hr|].
    rewrite Hl in H1.
    exists (S k), (t :: ts), td'. simpl. rewrite He, H1, H2, <- app_assoc.
    repeat split; assumption || reflexivity.
  - exists 0%nat, [], td. simpl. rewrite app_nil_r.
    destruct (entry_track_none_inv _ _ _ He) as [Hx|[Hx|[Hx|Hx]]]; [| | |discriminate Hx];
      repeat split; tauto.
Qed.

(** X15: the GUI's [handle_album_metadata] and [handle_playlist_metadata]
    build the same tracks as the bulk manager's extraction from the same
    metadata (with the cache fields at their defaults); when the bulk
    extraction fails, the GUI keeps exactly the tracks built from the
    entries before the first malformed one (an entry without its URL,
    name or artists, or, for an album, its track number), and none of
    the entries from it on. *)
Theorem gui_tracks_match_bulk prev an owner tl :
  (forall ts, extract_tracks_from_album_metadata (Some an) (Some tl) = Some ts ->
     gui_album_tracks prev (Some an) (Some tl) = map to_ctrack ts) /\
  (forall ts, extract_tracks_from_playlist_metadata (Some tl) = Some ts ->
     gui_playlist_tracks prev (Some owner) (Some tl) = map to_ctrack ts) /\
  (extract_tracks_from_album_metadata (Some an) (Some tl) = None ->
     exists k ts td, nth_error tl k = Some td /\
       (td_external_urls td = None \/ td_name td = None \/ td_artists td = None \/
        td_track_number td = None) /\
       extract_tracks_from_album_metadata (Some an) (Some (firstn k tl)) = Some ts /\
       gui_album_tracks prev (Some an) (Some tl) = map to_ctrack ts) /\
  (extract_tracks_from_playlist_metadata (Some tl) = None ->
     exists k ts td, nth_error tl k = Some td /\
       (td_external_urls td = None \/ td_name td = None \/ td_artists td = None) /\
       extract_tracks_from_playlist_metadata (Some (firstn k tl)) = Some ts /\
       gui_playlist_tracks prev (Some owner) (Some tl) = map to_ctrack ts).
Proof.
  split; [|split; [|split]].
  - intros ts H. exact (gui_append_album an tl [] ts H).
  - intros ts H. exact (gui_append_playlist tl [] ts H).
  - intros H. exact (gui_append_album_none an tl [] H).
  - intros H. exact (gui_append_playlist_none tl [] H).
Qed.

Lemma gui_tracks_match_bulk_witness :
  exists k ts td, nth_error [td_one; td_broken; td_two] k = Some td /\
    (td_external_urls td = None \/ td_name td = None \/ td_artists td = None \/
     td_track_number td = None) /\
    extract_tracks_from_album_metadata (Some "Alb") (Some (firstn k [td_one; td_broken; td_two]))
      = Some ts /\
    gui_album_tracks [csong] (Some "Alb") (Some [td_one; td_broken; td_two]) = map to_ctrack ts.
Proof.
  exact (proj1 (proj2 (proj2 (gui_tracks_match_bulk [csong] "Alb" "owner"
                                [td_one; td_broken; td_two]))) eq_refl).
Defined.

(** *** The batch-file check of the GUI *)

Lemma count_valid_collect ls : forall n, count_valid ls = List.length (collect_items n ls).
Proof.
  induction ls as [|l ls IH]; intros n; [reflexivity|]. simpl.
  destruct (url_accepted (strip l)); simpl; rewrite (IH (S n)); reflexivity.
Qed.

(** X16: the GUI's [validate_bulk_file] counts exactly the items the bulk
    manager's loader then processes, and enables the start button exactly
    when the loader accepts the file. *)
Theorem validate_matches_loader content :
  fst (validate_bulk_file content) = List.length (run_items content) /\
  (snd (validate_bulk_file content) = true <-> load_urls_from_file content <> None).
Proof.
  unfold validate_bulk_file, run_items, load_urls_from_file. simpl.
  rewrite (count_valid_collect _ 1).
  destruct (collect_items 1 (readlines content)) as [|it its]; simpl.
  - split; [reflexivity|]. split; [discriminate|]. intros H; exfalso; apply H; reflexivity.
  - split; [reflexivity|]. split; [intros _; discriminate|reflexivity].
Qed.

Lemma validate_matches_loader_witness :
  fst (validate_bulk_file batch_file) = List.length (run_items batch_file).
Proof. exact (proj1 (validate_matches_loader batch_file)). Defined.

(** *** Time labels *)

Lemma is_digit_of d : (d < 10)%nat -> is_digit (ascii_of_nat (48 + d)) = true.
Proof.
  intros Hd. unfold is_digit. rewrite nat_ascii_embedding by lia.
  apply andb_true_intro. split; apply Nat.leb_le; lia.
Qed.

Lemma dec_aux_val :
  forall f n, (n < f)%nat ->
  exists k, forall v acc, digits_val v (dec_aux f n acc) = digits_val (v * 10 ^ k + n) acc.
Proof.
  induction f as [|f IH]; intros n Hn; [lia|].
  assert (Hd : forall v acc, digits_val v (String (ascii_of_nat (48 + n mod 10)) acc)
                             = digits_val (v * 10 + n mod 10) acc).
  { intros v acc. cbn [digits_val]. rewrite is_digit_of by (apply Nat.mod_upper_bound; lia).
    rewrite nat_ascii_embedding by (pose proof (Nat.mod_upper_bound n 10); lia).
    f_equal. lia. }
  cbn [dec_aux]. destruct (Nat.ltb_spec n 10) as [Hlt|Hge].
  - exists 1%nat. intros v acc. rewrite Hd, Nat.mod_small by exact Hlt. f_equal; lia.
  - destruct (IH (n / 10)%nat) as [k Hk].
    { assert (n / 10 < n)%nat by (apply Nat.div_lt; lia). lia. }
    exists (S k). intros v acc. rewrite Hk, Hd. f_equal.
    pose proof (Nat.div_mod_eq n 10). rewrite Nat.pow_succ_r'. nia.
Qed.

Lemma nat_str_val n : digits_val 0 (nat_str n) = Some n.
Proof.
  unfold nat_str. destruct (dec_aux_val (S n) n ltac:(lia)) as [k Hk].
  rewrite Hk. reflexivity.
Qed.

Lemma dec_aux_digits :
  forall f n acc, all_digits acc = true -> all_digits (dec_aux f n acc) = true.
Proof.
  unfold all_digits. induction f as [|f IH]; intros n acc Ha; [exact Ha|]. cbn [dec_aux].
  assert (Hs : forallb is_digit (list_ascii_of_string
                  (String (ascii_of_nat (48 + n mod 10)) acc)) = true).
  { cbn [list_ascii_of_string forallb]. rewrite Ha, is_digit_of by (apply Nat.mod_upper_bound; lia). reflexivity. }
  destruct (Nat.ltb n 10); [exact Hs|]. apply IH. exact Hs.
Qed.

Lemma nat_str_digits n : all_digits (nat_str n) = true.
Proof. apply dec_aux_digits. reflexivity. Qed.

Lemma digits_split x1 x2 y1 y2 :
  all_digits x1 = true -> all_digits x2 = true ->
  x1 ++ ":" ++ y1 = x2 ++ ":" ++ y2 -> x1 = x2 /\ y1 = y2.
Proof.
  unfold all_digits. revert x2. induction x1 as [|c x1 IH]; intros x2 H1 H2 He;
    destruct x2 as [|c' x2]; simpl in *.
  - injection He as He. split; [reflexivity|exact He].
  - injection He as <- _. discriminate H2.
  - injection He as -> _. discriminate H1.
  - apply andb_prop in H1. apply andb_prop in H2.
    injection He as <- He. destruct (IH x2 (proj2 H1) (proj2 H2) He) as [-> ->].
    split; reflexivity.
Qed.

(** For [0 <= z < 60]: the zero-padded label is one leading zero or none,
    then the decimal numeral. *)
Lemma Z_str02_small z :
  (0 <= z < 60)%Z ->
  Z_str02 z = (if (z <? 10)%Z then "0" else "") ++ nat_str (Z.to_nat z).
Proof.
  intros Hz. unfold Z_str02, Z_str.
  replace (z <? 0)%Z with false by (symmetry; apply Z.ltb_ge; lia).
  replace (0 <=? z)%Z with true by (symmetry; apply Z.leb_le; lia).
  destruct (z <? 10)%Z; reflexivity.
Qed.

Lemma Z_str02_val z :
  (0 <= z < 60)%Z -> digits_val 0 (Z_str02 z) = Some (Z.to_nat z) /\ all_digits (Z_str02 z) = true.
Proof.
  intros Hz. rewrite Z_str02_small by exact Hz.
  destruct (z <? 10)%Z; simpl; (split; [apply nat_str_val|apply nat_str_digits]).
Qed.

Lemma Z_str_nonneg z :
  (0 <= z)%Z -> digits_val 0 (Z_str z) = Some (Z.to_nat z) /\ all_digits (Z_str z) = true.
Proof.
  intros Hz. unfold Z_str. replace (z <? 0)%Z with false by (symmetry; apply Z.ltb_ge; lia).
  split; [apply nat_str_val|apply nat_str_digits].
Qed.

Lemma format_duration_seconds ms :
  format_duration ms = Z_str (ms / 1000 / 60) ++ ":" ++ Z_str02 ((ms / 1000) mod 60).
Proof.
  unfold format_duration. rewrite Z.div_div by lia. f_equal. f_equal. f_equal.
  pose proof (Z.div_mod ms 60000 ltac:(lia)) as Hd.
  pose proof (Z.mod_pos_bound ms 60000 ltac:(lia)) as Hb.
  set (q := (ms / 60000)%Z) in *. set (r := (ms mod 60000)%Z) in *.
  assert (Hs : (ms / 1000 = r / 1000 + q * 60)%Z).
  { rewrite Hd. replace (60000 * q + r)%Z with (r + q * 60 * 1000)%Z by lia.
    apply Z.div_add. lia. }
  rewrite Hs, Z.mod_add by lia. symmetry. apply Z.mod_small.
  split; [apply Z.div_pos; lia|]. apply Z.div_lt_upper_bound; lia.
Qed.

Lemma format_time_seconds ms :
  (0 <= ms)%Z ->
  format_time ms = Z_str02 (ms / 1000 / 60) ++ ":" ++ Z_str02 ((ms / 1000) mod 60).
Proof.
  intros Hm. unfold format_time. rewrite Z.quot_div_nonneg by lia. reflexivity.
Qed.

Lemma seconds_eq (a b : Z) :
  (a / 60 = b / 60)%Z -> (a mod 60 = b mod 60)%Z -> a = b.
Proof.
  intros H1 H2. rewrite (Z.div_mod a 60), (Z.div_mod b 60) by lia. rewrite H1, H2. reflexivity.
Qed.

Lemma two_digit_label k :
  (k < 60)%nat ->
  exists d1 d2, (if (Z.of_nat k <? 10)%Z then "0" else "") ++ nat_str k = String d1 (String d2 "") /\
    is_digit d1 = true /\ is_digit d2 = true.
Proof.
  intros Hk.
  do 60 (destruct k as [|k]; [eexists _, _; split; [reflexivity|split; reflexivity]|]).
  lia.
Qed.

(** X17: for non-negative durations, the track list's [format_duration]
    labels two durations alike exactly when they have the same number of
    whole seconds; the seconds field always has two digits. *)
Theorem format_duration_whole_seconds a b :
  (0 <= a)%Z -> (0 <= b)%Z ->
  (format_duration a = format_duration b <-> (a / 1000 = b / 1000)%Z) /\
  exists d1 d2, is_digit d1 = true /\ is_digit d2 = true /\
    format_duration a = Z_str (a / 60000) ++ ":" ++ String d1 (String d2 "").
Proof.
  intros Ha Hb.
  assert (Hsa : (0 <= a / 1000)%Z) by (apply Z.div_pos; lia).
  assert (Hsb : (0 <= b / 1000)%Z) by (apply Z.div_pos; lia).
  split.
  - rewrite !format_duration_seconds. split.
    + intros He.
      destruct (Z_str_nonneg (a / 1000 / 60)) as [Va Da]; [apply Z.div_pos; lia|].
      destruct (Z_str_nonneg (b / 1000 / 60)) as [Vb Db]; [apply Z.div_pos; lia|].
      destruct (digits_split _ _ _ _ Da Db He) as [Hm Hs].
      destruct (Z_str02_val ((a / 1000) mod 60)) as [Wa _]; [apply Z.mod_pos_bound; lia|].
      destruct (Z_str02_val ((b / 1000) mod 60)) as [Wb _]; [apply Z.mod_pos_bound; lia|].
      rewrite Hm, Vb in Va. rewrite Hs, Wb in Wa.
      injection Va as Va. injection Wa as Wa.
      pose proof (Z.mod_pos_bound (a / 1000) 60 ltac:(lia)).
      pose proof (Z.mod_pos_bound (b / 1000) 60 ltac:(lia)).
      assert (0 <= a / 1000 / 60)%Z by (apply Z.div_pos; lia).
      assert (0 <= b / 1000 / 60)%Z by (apply Z.div_pos; lia).
      apply seconds_eq; lia.
    + intros He. rewrite He. reflexivity.
  - unfold format_duration at 1.
    assert (Hr : (0 <= (a mod 60000) / 1000 < 60)%Z).
    { pose proof (Z.mod_pos_bound a 60000 ltac:(lia)).
      split; [apply Z.div_pos; lia|]. apply Z.div_lt_upper_bound; lia. }
    rewrite Z_str02_small by exact Hr.
    destruct (two_digit_label (Z.to_nat ((a mod 60000) / 1000)) ltac:(lia))
      as (d1 & d2 & He & H1 & H2).
    rewrite Z2Nat.id in He by lia.
    exists d1, d2. rewrite He. split; [exact H1|split; [exact H2|reflexivity]].
Qed.

(** X18: for non-negative positions, the media player's [format_time]
    labels two positions alike exactly when they have the same number of
    whole seconds, that is exactly when the track list's [format_duration]
    labels them alike. *)
Theorem format_time_whole_seconds a b :
  (0 <= a)%Z -> (0 <= b)%Z ->
  (format_time a = format_time b <-> (a / 1000 = b / 1000)%Z) /\
  (format_time a = format_time b <-> format_duration a = format_duration b).
Proof.
  intros Ha Hb.
  assert (Hsa : (0 <= a / 1000)%Z) by (apply Z.div_pos; lia).
  assert (Hsb : (0 <= b / 1000)%Z) by (apply Z.div_pos; lia).
  assert (Ht : format_time a = format_time b <-> (a / 1000 = b / 1000)%Z).
  { rewrite !format_time_seconds by assumption. split.
    - intros He.
      pose proof (Z.mod_pos_bound (a / 1000) 60 ltac:(lia)).
      pose proof (Z.mod_pos_bound (b / 1000) 60 ltac:(lia)).
      assert (0 <= a / 1000 / 60)%Z by (apply Z.div_pos; lia).
      assert (0 <= b / 1000 / 60)%Z by (apply Z.div_pos; lia).
      (* minutes may reach 60 and beyond: read them with [Z_str] when at least 10 *)
      assert (Hm : forall z, (0 <= z)%Z ->
                 digits_val 0 (Z_str02 z) = Some (Z.to_nat z) /\ all_digits (Z_str02 z) = true).
      { intros z Hz. unfold Z_str02.
        destruct ((0 <=? z) && (z <? 10))%Z; [|apply Z_str_nonneg; exact Hz].
        destruct (Z_str_nonneg z Hz) as [V D]. split; [exact V|exact D]. }
      destruct (Hm (a / 1000 / 60)%Z ltac:(lia)) as [Va Da].
      destruct (Hm (b / 1000 / 60)%Z ltac:(lia)) as [Vb Db].
      destruct (digits_split _ _ _ _ Da Db He) as [Hmin Hsec].
      destruct (Hm ((a / 1000) mod 60)%Z ltac:(lia)) as [Wa _].
      destruct (Hm ((b / 1000) mod 60)%Z ltac:(lia)) as [Wb _].
      rewrite Hmin, Vb in Va. rewrite Hsec, Wb in Wa.
      injection Va as Va. injection Wa as Wa.
      apply seconds_eq; lia.
    - intros He. rewrite He. reflexivity. }
  split; [exact Ht|].
  rewrite Ht. symmetry. apply (proj1 (format_duration_whole_seconds a b Ha Hb)).
Qed.

Lemma format_duration_whole_seconds_witness :
  format_duration 185000 = format_duration 185999.
Proof.
  exact (proj2 (proj1 (format_duration_whole_seconds 185000 185999
                         ltac:(lia) ltac:(lia))) eq_refl).
Defined.

Lemma format_time_whole_seconds_witness :
  format_time 3601000 = format_time 3601999.
Proof.
  exact (proj2 (proj1 (format_time_whole_seconds 3601000 3601999
                         ltac:(lia) ltac:(lia))) eq_refl).
Defined.

(** *** The media player *)

Lemma nav_step_in_range s op :
  (0 <= current_track_index s < nav_len s)%Z ->
  nav_len (nav_step s op) = nav_len s /\
  (0 <= current_track_index (nav_step s op) < nav_len s)%Z.
Proof.
  intros H. destruct op; simpl;
    unfold end_of_media, next_track, previous_track.
  - destruct (Z.ltb_spec 0 (current_track_index s)); simpl; lia.
  - destruct (Z.ltb_spec (current_track_index s) (nav_len s - 1)); simpl; lia.
  - destruct (Z.ltb_spec (current_track_index s) (nav_len s - 1)); simpl;
      [destruct (Z.ltb_spec (current_track_index s) (nav_len s - 1)); simpl|]; lia.
Qed.

Lemma nav_run_in_range ops :
  forall s, (0 <= current_track_index s < nav_len s)%Z ->
  nav_len (nav_run s ops) = nav_len s /\
  (0 <= current_track_index (nav_run s ops) < nav_len s)%Z.
Proof.
  unfold nav_run. induction ops as [|op ops IH]; intros s H; simpl; [split; [reflexivity|exact H]|].
  destruct (nav_step_in_range s op H) as [H1 H2].
  rewrite <- H1. apply IH. rewrite H1. exact H2.
Qed.

Lemma nav_run_nexts n k :
  (1 <= n)%nat ->
  current_track_index (nav_run (load_tracks n) (repeat NavNext k)) = Z.of_nat (Nat.min k (n - 1)).
Proof.
  intros Hn. unfold nav_run.
  assert (Hg : forall k i, (i <= n - 1)%nat ->
            fold_left nav_step (repeat NavNext k) (mkNav (Z.of_nat n) (Z.of_nat i))
            = mkNav (Z.of_nat n) (Z.of_nat (Nat.min (i + k) (n - 1)))).
  { induction k0 as [|k0 IH]; intros i Hi; simpl.
    - f_equal. f_equal. lia.
    - unfold next_track. simpl.
      destruct (Z.ltb_spec (Z.of_nat i) (Z.of_nat n - 1)) as [Hlt|Hge].
      + replace (Z.of_nat i + 1)%Z with (Z.of_nat (S i)) by lia.
        rewrite IH by lia. f_equal. f_equal. lia.
      + assert (i = n - 1)%nat by lia. subst i.
        clear IH. induction k0 as [|k0 IH]; simpl.
        * f_equal. f_equal. lia.
        * unfold next_track at 1. simpl.
          destruct (Z.ltb_spec (Z.of_nat (n - 1)) (Z.of_nat n - 1)); [lia|].
          rewrite IH. f_equal. f_equal. lia. }
  unfold load_tracks. change 0%Z with (Z.of_nat 0). rewrite Hg by lia. reflexivity.
Qed.

(** X19: after [load_tracks] with at least one track, any sequence of
    [previous_track], [next_track] and end-of-media events keeps
    [current_track_index] between 0 and the last index; [next_track]
    pressed k times from the start lands on track min(k, n-1), and an
    end-of-media event moves exactly as [next_track] does. *)
Theorem nav_index_in_range n ops k :
  (1 <= n)%nat ->
  (0 <= current_track_index (nav_run (load_tracks n) ops) < Z.of_nat n)%Z /\
  nav_len (nav_run (load_tracks n) ops) = Z.of_nat n /\
  current_track_index (nav_run (load_tracks n) (repeat NavNext k)) = Z.of_nat (Nat.min k (n - 1)) /\
  (forall s, end_of_media s = next_track s).
Proof.
  intros Hn.
  destruct (nav_run_in_range ops (load_tracks n)) as [H1 H2]; [simpl; lia|].
  split; [exact H2|]. split; [exact H1|]. split; [apply nav_run_nexts; exact Hn|].
  intros s. unfold end_of_media, next_track.
  destruct (current_track_index s <? nav_len s - 1)%Z; reflexivity.
Qed.

Lemma nav_index_in_range_witness :
  (0 <= current_track_index (nav_run (load_tracks 3) [NavNext; NavNext; NavNext; NavEnd; NavPrev])
     < 3)%Z.
Proof.
  exact (proj1 (nav_index_in_range 3 [NavNext; NavNext; NavNext; NavEnd; NavPrev] 0
                  ltac:(lia))).
Defined.

(** The conditional request of [load_current_track] for index [i]. *)
Lemma cond_add_effect s i :
  (0 <= i)%Z ->
  (match track_at s i with
   | Some t =>
       if String.eqb (cached_file t) "" && String.eqb (cache_error t) ""
       then add_to_queue s i else s
   | None => s
   end) = s \/
  ((0 <= i < Z.of_nat (List.length (ctracks s)))%Z /\
   exists t, track_at s i = Some t /\
     cached_file t = "" /\ cache_error t = "" /\ is_downloading t = false /\
     (match track_at s i with
      | Some t =>
          if String.eqb (cached_file t) "" && String.eqb (cache_error t) ""
          then add_to_queue s i else s
      | None => s
      end) =
     mkCacheState
       (update_nth (Z.to_nat i) (fun t => set_cache_fields t (cached_file t) true (cache_error t))
          (ctracks s))
       (download_queue s ++ [i])).
Proof.
  intros Hi.
  destruct (track_at s i) as [t0|] eqn:Ht0; [|left; reflexivity].
  destruct (String.eqb (cached_file t0) "" && String.eqb (cache_error t0) "") eqn:Hc;
    [|left; reflexivity].
  destruct (add_to_queue_cases s i) as [E|(k & t & Hlt & Hp & Hn & H1 & H2 & H3 & E)];
    [left; exact E|right].
  assert (Hk : k = Z.to_nat i).
  { unfold py_index in Hp.
    replace ((0 <=? i) && (i <? Z.of_nat (List.length (ctracks s))))%Z with true in Hp
      by (symmetry; apply andb_true_intro; split; [apply Z.leb_le|apply Z.ltb_lt]; lia).
    injection Hp as <-. reflexivity. }
  subst k.
  assert (Ht : track_at s i = Some t) by (unfold track_at; rewrite Hp; exact Hn).
  rewrite Ht0 in Ht. injection Ht as <-.
  split; [lia|]. exists t0. split; [reflexivity|].
  repeat split; try assumption.
Qed.

Lemma track_at_other s i j f :
  (0 <= i)%Z -> (0 <= j)%Z -> i <> j ->
  track_at (mkCacheState (update_nth (Z.to_nat i) f (ctracks s)) (download_queue s ++ [i])) j
  = track_at s j.
Proof.
  intros Hi Hj Hne. unfold track_at. simpl. rewrite update_nth_length.
  unfold py_index.
  destruct ((0 <=? j) && (j <? Z.of_nat (List.length (ctracks s))))%Z; [|
    replace ((- Z.of_nat (List.length (ctracks s)) <=? j) && (j <? 0))%Z with false
      by (symmetry; apply andb_false_intro2; apply Z.ltb_ge; lia); reflexivity].
  rewrite nth_error_update_nth.
  replace (Nat.eqb (Z.to_nat i) (Z.to_nat j)) with false by (symmetry; apply Nat.eqb_neq; lia).
  reflexivity.
Qed.

(** X20: [load_current_track] at a non-negative index only appends to the
    cache queue: the current index, the next one, both or neither, each
    only for an existing track that has no cached file, no cache error and
    no download in progress; the track list keeps its length. *)
Theorem load_current_track_queue s idx :
  (0 <= idx)%Z ->
  exists l,
    download_queue (load_current_track s idx) = (download_queue s ++ l)%list /\
    (l = [] \/ l = [idx] \/ l = [(idx + 1)%Z] \/ l = [idx; (idx + 1)%Z]) /\
    Forall (fun j => (0 <= j < Z.of_nat (List.length (ctracks s)))%Z /\
              exists t, track_at s j = Some t /\ cached_file t = "" /\ cache_error t = "" /\
                        is_downloading t = false) l /\
    List.length (ctracks (load_current_track s idx)) = List.length (ctracks s).
Proof.
  intros Hi. unfold load_current_track.
  destruct ((Z.of_nat (List.length (ctracks s)) =? 0)%Z ||
            (Z.of_nat (List.length (ctracks s)) <=? idx)%Z) eqn:Hr.
  { exists []. rewrite app_nil_r. repeat split; auto. }
  apply orb_false_iff in Hr. destruct Hr as [_ Hr]. apply Z.leb_gt in Hr.
  assert (Hi1 : (0 <= idx + 1)%Z) by lia.
  destruct (cond_add_effect s idx Hi) as [E1|(Hb1 & t1 & Ht1 & C1 & R1 & D1 & E1)];
    rewrite E1.
  - destruct (idx + 1 <? Z.of_nat (List.length (ctracks s)))%Z eqn:Hn.
    + apply Z.ltb_lt in Hn.
      destruct (cond_add_effect s (idx + 1) Hi1)
        as [E2|(Hb2 & t2 & Ht2 & C2 & R2 & D2 & E2)]; rewrite E2.
      * exists []. rewrite app_nil_r. repeat split; auto.
      * exists [(idx + 1)%Z]. simpl. rewrite update_nth_length.
        split; [reflexivity|]. split; [auto|]. split; [|reflexivity].
        constructor; [|constructor]. split; [lia|]. exists t2. auto.
    + exists []. rewrite app_nil_r. repeat split; auto.
  - simpl. rewrite update_nth_length.
    set (s1 := mkCacheState
                 (update_nth (Z.to_nat idx)
                    (fun t => set_cache_fields t (cached_file t) true (cache_error t)) (ctracks s))
                 (download_queue s ++ [idx])).
    assert (Hl1 : List.length (ctracks s1) = List.length (ctracks s))
      by (subst s1; simpl; apply update_nth_length).
    assert (Ha1 : track_at s1 (idx + 1) = track_at s (idx + 1))
      by (apply track_at_other; lia).
    destruct (idx + 1 <? Z.of_nat (List.length (ctracks s)))%Z eqn:Hn.
    + apply Z.ltb_lt in Hn.
      destruct (cond_add_effect s1 (idx + 1) Hi1)
        as [E2|(Hb2 & t2 & Ht2 & C2 & R2 & D2 & E2)]; rewrite E2.
      * exists [idx]. subst s1. simpl. rewrite update_nth_length.
        split; [reflexivity|]. split; [auto|]. split; [|reflexivity].
        constructor; [|constructor]. split; [lia|]. exists t1. auto.
      * exists [idx; (idx + 1)%Z]. simpl. rewrite !update_nth_length.
        split; [subst s1; simpl; rewrite <- app_assoc; reflexivity|].
        split; [auto|]. split; [|reflexivity].
        constructor; [split; [lia|]; exists t1; auto|].
        constructor; [|constructor]. split; [lia|].
        exists t2. rewrite <- Ha1. auto.
    + exists [idx]. simpl. split; [reflexivity|]. split; [auto|].
      split; [|apply update_nth_length].
      constructor; [|constructor]. split; [lia|]. exists t1. auto.
Qed.

Lemma load_current_track_queue_witness :
  exists l, download_queue (load_current_track cq0 0) = (download_queue cq0 ++ l)%list /\
    (l = [] \/ l = [0%Z] \/ l = [1%Z] \/ l = [0%Z; 1%Z]).
Proof.
  destruct (load_current_track_queue cq0 0 ltac:(lia)) as (l & H1 & H2 & _).
  exists l. split; [exact H1|exact H2].
Defined.

End Extras.
